(** * httprouter: dispatch, response buffer and language negotiation

    A shallow embedding of the request router (router.go), its in-memory
    response writer and its Accept-Language negotiator, followed by the
    properties of the specification that were checked against it.

    Go strings are byte sequences, so they are modelled by [string]
    (sequences of 8-bit [ascii]); [len] is [String.length] and [<] on strings
    is the bytewise lexicographic order [String.ltb].  Go [int]/[int32]
    values are modelled by [Z] (no operation here can overflow them).  Go maps
    are [gmap]s; the unspecified order of [range] over a map is an explicit
    parameter.  A handler is the sequence of calls it makes on its response
    writer; the handler goroutine and the dispatcher's [select] are
    interleaved by an explicit schedule.  The prefix tree (tree.go) is a
    parameter of the router, and is rebuilt from its specification where an
    instance is needed. *)

From Stdlib Require Import ZArith Lia List Ascii String.
From stdpp Require Import base gmap strings list sorting.

Open Scope string_scope.
Open Scope Z_scope.

(** ** Results of fallible code *)

(** A Go call either returns, returns a non-nil [error], or panics. *)
Inductive outcome (A : Type) : Type :=
| Ok (a : A)
| Err (msg : string)
| Panic (msg : string).
Arguments Ok {A} a.
Arguments Err {A} msg.
Arguments Panic {A} msg.

#[global] Instance outcome_ret : MRet outcome := λ A a, Ok a.

#[global] Instance outcome_bind : MBind outcome := λ A B f x,
  match x with
  | Ok a => f a
  | Err m => Err m
  | Panic m => Panic m
  end.

(** ** The part of package [strings] the router uses *)

Module GoStrings.

(** [strings.Split(s, sep)] for a one-byte separator. *)
Fixpoint Split (sep : ascii) (s : string) : list string :=
  match s with
  | EmptyString => [EmptyString]
  | String c s' =>
      if Ascii.eqb c sep then EmptyString :: Split sep s'
      else match Split sep s' with
           | [] => [String c EmptyString]
           | x :: xs => String c x :: xs
           end
  end.

(** The text before and after the first occurrence of [sep], if any. *)
Fixpoint cut (sep : ascii) (s : string) : option (string * string) :=
  match s with
  | EmptyString => None
  | String c s' =>
      if Ascii.eqb c sep then Some (EmptyString, s')
      else match cut sep s' with
           | Some (a, b) => Some (String c a, b)
           | None => None
           end
  end.

(** [strings.SplitN(s, sep, 2)] for a one-byte separator. *)
Definition SplitN2 (sep : ascii) (s : string) : list string :=
  match cut sep s with
  | Some (a, b) => [a; b]
  | None => [s]
  end.

(** [strings.Join(elems, sep)]. *)
Fixpoint Join (elems : list string) (sep : string) : string :=
  match elems with
  | [] => EmptyString
  | [x] => x
  | x :: xs => x ++ sep ++ Join xs sep
  end.

(** [strings.HasPrefix(s, prefix)]. *)
Definition HasPrefix (s pre : string) : bool := String.prefix pre s.

(** The last byte of a string: [s[len(s)-1]], absent on the empty string. *)
Fixpoint lastByte (s : string) : option ascii :=
  match s with
  | EmptyString => None
  | String c EmptyString => Some c
  | String _ s' => lastByte s'
  end.

(** [s[:len(s)-1]]. *)
Fixpoint dropLast (s : string) : string :=
  match s with
  | EmptyString => EmptyString
  | String _ EmptyString => EmptyString
  | String c s' => String c (dropLast s')
  end.

End GoStrings.
Import GoStrings.

(** ** Package sort: Search and IsSorted *)

Module GoSort.

(** The loop of [sort.Search(n, f)]: binary search for the least index in
    [i, j) at which [f] holds, assuming [f] is monotone.  The loop halves
    [j - i], so [j - i] units of fuel are always enough. *)
Fixpoint Search_loop (fuel : nat) (f : nat → bool) (i j : nat) : nat :=
  match fuel with
  | O => i
  | S fuel' =>
      if (i <? j)%nat then
        let h := ((i + j) / 2)%nat in
        if negb (f h) then Search_loop fuel' f (h + 1)%nat j
        else Search_loop fuel' f i h
      else i
  end.

Definition Search (n : nat) (f : nat → bool) : nat := Search_loop n f 0%nat n.

(** [sort.IsSorted(data)]: walks from the last index down to 1 and fails on
    the first [i] with [Less(i, i-1)].  [Less_ a b] is [Less] on the elements. *)
Fixpoint IsSorted_from {A : Type} (Less_ : A → A → bool) (prev : A) (l : list A) : bool :=
  match l with
  | [] => true
  | x :: l' => IsSorted_from Less_ x l' && negb (Less_ x prev)
  end.

Definition IsSorted {A : Type} (Less_ : A → A → bool) (l : list A) : bool :=
  match l with
  | [] => true
  | x :: l' => IsSorted_from Less_ x l'
  end.

End GoSort.

(** ** Data of the router *)

(** [Param] and [Params] (router.go).  A nil [Params] slice is [None]. *)
Record Param := { Key : string; Value : string }.

Abbreviation Params := (list Param).

(** The fields of [url.URL] the router reads and writes. *)
Record URL := { Path : string; RawQuery : string }.

(** [TypeParam] (negotiation unit): a tag and its quality times 1000. *)
Record TypeParam := { Typ : string; Q : Z }.

Abbreviation TypeParams := (list TypeParam).

(** ** What the program takes from its runtime and from other packages

    These functions belong to Go's library or runtime, not to the repository.
    They are parameters of the development: every theorem holds for all of
    them (under [GoEnvLaws] where it says so).
    - [TrimSpace], [ToLower]: package strings (Unicode aware);
    - [filepath_Join]: [filepath.Join(elems...)];
    - [parseQuality v]: [strconv.ParseFloat(v, 64)] followed by
      [int32(f * 1000.0)], [None] when ParseFloat fails (floating point is
      not modelled);
    - [sort_Sort]: [sort.Sort] called with the given [Less] on elements;
    - [range_map], [range_set]: the order in which [range] visits a map;
    - [URL_String]: the String method of [url.URL];
    - [redirect_target oldpath url]: the Location computed by [http.Redirect]
      from the request path and the target; [redirect_body]: its HTML body. *)
Class GoEnv := {
  TrimSpace : string → string;
  ToLower : string → string;
  filepath_Join : list string → string;
  parseQuality : string → option Z;
  sort_Sort : ∀ A : Type, (A → A → bool) → list A → list A;
  range_map : ∀ V : Type, gmap string V → list (string * V);
  range_set : gset string → list string;
  URL_String : URL → string;
  redirect_target : string → string → string;
  redirect_body : string → Z → string
}.

(** What is known of them: sorting and ranging lose and invent nothing. *)
Class GoEnvLaws {env : GoEnv} : Prop := {
  sort_Sort_perm : ∀ (A : Type) (lt : A → A → bool) (l : list A), sort_Sort A lt l ≡ₚ l;
  range_map_perm : ∀ (V : Type) (m : gmap string V), range_map V m ≡ₚ map_to_list m;
  range_set_perm : ∀ s : gset string, range_set s ≡ₚ elements s
}.

(** ** The language negotiator *)

Module Negotiation.
Section Negotiation.
Context {env : GoEnv}.

(** [less] determines the order of two parameters: [less l r] reads
    "[l] is less desirable than [r]". *)
Definition less (l r : TypeParam) : bool :=
  if String.eqb (Typ l) "*/*" || String.eqb (Typ l) "*" then true
  else if Z.eqb (Q l) (Q r) then
    if String.eqb (Typ l) (Typ r) then false
    else
      match SplitN2 "/" (Typ l), SplitN2 "/" (Typ r) with
      | [si0; si1], [sj0; sj1] =>
          if String.eqb si0 sj0 then
            if String.eqb si1 "*" then false
            else (length (Split ";" si1) <? length (Split ";" sj1))%nat
          else false
      | _, _ => (String.length (Typ l) <? String.length (Typ r))%nat
      end
  else Z.ltb (Q l) (Q r).

(** [TypeParams.Less(i, j)] on the elements at [i] and [j]. *)
Definition Less (a b : TypeParam) : bool := negb (less a b).

(** [TypeParams.IsPresent]: a binary search with an equality predicate. *)
Definition IsPresent (tps : TypeParams) (t : string) : bool :=
  let typeAt (i : nat) := from_option (λ tp, String.eqb (Typ tp) t) false (tps !! i) in
  let i := GoSort.Search (length tps) typeAt in
  (i <? length tps)%nat && typeAt i.

(** The loop of [Parse] over the [;]-separated attributes of one entry. *)
Fixpoint parseAttrs (ms : list string) (strType : string) (quality : Z) : outcome (string * Z) :=
  match ms with
  | [] => Ok (strType, quality)
  | m0 :: ms' =>
      let m := TrimSpace m0 in
      if HasPrefix m "q=" then
        match SplitN2 "=" m with
        | [_; v] =>
            match parseQuality v with
            | Some q => parseAttrs ms' strType q
            | None => Err "strconv.ParseFloat: parsing failed"
            end
        | _ => Err "small quality value string"
        end
      else
        match SplitN2 "=" m with
        | [_; _] => parseAttrs ms' (strType ++ ";" ++ m) quality
        | _ => Err "small token value string"
        end
  end.

(** One [,]-separated entry of the header. *)
Definition parseEntry (mp : string) : outcome TypeParam :=
  match Split ";" mp with
  | [] => Err "invalid index"
  | [t] => Ok {| Typ := TrimSpace t; Q := 1000 |}
  | t :: ms =>
      '(strType, quality) ← parseAttrs ms (TrimSpace t) 1000;
      Ok {| Typ := strType; Q := quality |}
  end.

Fixpoint parseEntries (mps : list string) : outcome TypeParams :=
  match mps with
  | [] => Ok []
  | mp :: mps' =>
      tp ← parseEntry mp;
      tps ← parseEntries mps';
      Ok (tp :: tps)
  end.

(** [sort.Sort] guarded by [sort.IsSorted], as both parsers end. *)
Definition sortIfNeeded (tps : TypeParams) : TypeParams :=
  if GoSort.IsSorted Less tps then tps else sort_Sort _ Less tps.

(** [Parse] parses a string with a collection of types and parameters. *)
Definition Parse (s : string) : outcome TypeParams :=
  if (String.length s =? 0)%nat then Err "invalid type/parameter"
  else
    tps ← parseEntries (Split "," s);
    Ok (sortIfNeeded tps).

(** [strings.SplitN(tp.Type, "-", 2)] with more than one part: the bare
    language of a tag that has a country part. *)
Definition familyOf (tp : TypeParam) : option string :=
  match SplitN2 "-" (Typ tp) with
  | s0 :: _ :: _ => Some s0
  | _ => None
  end.

(** The body of the first loop of [ParseLang] for one [tp]; [tpdmap] maps a
    bare language to the entry synthesized for it. *)
Definition fallbackStep (tps : TypeParams) (tpdmap : gmap string TypeParam) (tp : TypeParam)
    : gmap string TypeParam :=
  match familyOf tp with
  | Some s0 =>
      if negb (IsPresent tps s0) then
        match tpdmap !! s0 with
        | Some x =>
            if Q tp >? Q x then <[s0 := {| Typ := Typ x; Q := Q tp |}]> tpdmap
            else tpdmap
        | None => <[s0 := {| Typ := s0; Q := Q tp |}]> tpdmap
        end
      else tpdmap
  | None => tpdmap
  end.

Definition fallbacks (tps : TypeParams) : gmap string TypeParam :=
  foldl (fallbackStep tps) ∅ tps.

(** What the first loop of [ParseLang] keeps true of [tpdmap] after the
    tags [seen]: an entry is filed under its own tag, for a language the
    search did not find, with the greatest quality of the variants seen;
    and every such language seen has its entry. *)
Definition fallbackInv (tps : TypeParams) (m : gmap string TypeParam) (seen : TypeParams)
    : Prop :=
  (∀ k x, m !! k = Some x →
     Typ x = k ∧ IsPresent tps k = false
     ∧ (∃ v, v ∈ seen ∧ familyOf v = Some k ∧ Q v = Q x)
     ∧ (∀ v, v ∈ seen → familyOf v = Some k → Q v ≤ Q x))
  ∧ (∀ v k, v ∈ seen → familyOf v = Some k → IsPresent tps k = false → is_Some (m !! k)).

(** [ParseLang]: [Parse] plus a fallback entry for the language of every
    tag that has a country part. *)
Definition ParseLang (s : string) : outcome TypeParams :=
  tps ← Parse s;
  Ok (sortIfNeeded (tps ++ (range_map _ (fallbacks tps)).*2)%list).

(** [comptypes] compares two types, accepting [*]. *)
Definition comptypes (l r : string) : bool :=
  if String.eqb l r then true
  else
    let ltp := Split ";" (ToLower l) in
    let rtp := Split ";" (ToLower r) in
    let ls := SplitN2 "/" (hd "" ltp) in
    let rs := SplitN2 "/" (hd "" rtp) in
    let pass :=
      match ls, rs with
      | [a], _ :: _ => String.eqb a "*"
      | [a; b], [c; d] =>
          (String.eqb a "*" && String.eqb b "*")
          || (String.eqb a "*" && negb (String.eqb b "*") && negb (String.eqb c "")
              && negb (String.eqb c " ") && String.eqb b d)
          || (negb (String.eqb a "*") && String.eqb b "*" && negb (String.eqb d "")
              && negb (String.eqb d " ") && String.eqb a c)
      | _, _ => false
      end in
    if negb pass then false
    else if (length ltp <? 2)%nat && (length rtp <? 2)%nat then true
    else if negb (length ltp =? length rtp)%nat then false
    else bool_decide (tail ltp = tail rtp).

(** [rankType] returns the Q of the first type of [tps] similar to [t]. *)
Fixpoint rankType (tps : TypeParams) (t : string) : Z :=
  match tps with
  | [] => -1
  | tp :: tps' => if comptypes (Typ tp) t then Q tp else rankType tps' t
  end.

(** [FindBest] finds the best ranked of the types [vs]. *)
Definition FindBest (tps : TypeParams) (vs : gset string) : string :=
  if (size vs =? 0)%nat then ""
  else
    Typ (foldl (λ best s0,
                  let s := TrimSpace s0 in
                  let tp := {| Typ := s; Q := rankType tps s |} in
                  if (Q tp >? -1) && less best tp then tp else best)
               {| Typ := ""; Q := 0 |} (range_set vs)).

End Negotiation.
End Negotiation.

(** ** The response buffer (ResponseWriter) *)

(** [http.Header]: a map from canonical header names to their values.  The
    dispatcher only uses names that are already canonical, and the scripts
    below carry canonical names. *)
Abbreviation HeaderMap := (gmap string (list string)).

Module Hdr.

Definition Set_ (k v : string) (h : HeaderMap) : HeaderMap := <[k := [v]]> h.

Definition Add (k v : string) (h : HeaderMap) : HeaderMap :=
  <[k := (default [] (h !! k) ++ [v])%list]> h.

Definition Del (k : string) (h : HeaderMap) : HeaderMap := delete k h.

Definition Get (k : string) (h : HeaderMap) : string :=
  match h !! k with
  | Some (v :: _) => v
  | _ => ""
  end.

End Hdr.

(** [ResponseWriter] accumulates header, status code and body in memory. *)
Record ResponseWriter := {
  header : HeaderMap;
  code : Z;
  buffer : string
}.

(** The real [http.ResponseWriter] a response is committed to.  It is an
    interface for the router; it is modelled as a recorder: the first
    WriteHeader fixes the status ([0] while none was written), a Write
    without one implies 200, and Write never fails. *)
Record Transport := {
  t_header : HeaderMap;
  t_status : Z;
  t_body : string
}.

(** What a handler can do to the [http.ResponseWriter] it is given: the
    calls [WriteHeader(code)], [Write(buf)], and [Set], [Add], [Del] on
    [Header()]. *)
Inductive wop :=
| OpWriteHeader (c : Z)
| OpWrite (buf : string)
| OpSet (k v : string)
| OpAdd (k v : string)
| OpDel (k : string).

Module RW.
Section RW.
Context {env : GoEnv}.

Definition NewResponseWriter : ResponseWriter :=
  {| header := ∅; code := 0; buffer := "" |}.

Definition WriteHeader (c : Z) (rw : ResponseWriter) : ResponseWriter :=
  {| header := header rw; code := c; buffer := buffer rw |}.

Definition Write (buf : string) (rw : ResponseWriter) : ResponseWriter :=
  {| header := header rw; code := code rw; buffer := buffer rw ++ buf |}.

(** A change [f] made through the map returned by [Header()]. *)
Definition onHeader (f : HeaderMap → HeaderMap) (rw : ResponseWriter) : ResponseWriter :=
  {| header := f (header rw); code := code rw; buffer := buffer rw |}.

(** [Reset] the buffer: fresh header map, fresh buffer, no code. *)
Definition Reset (rw : ResponseWriter) : ResponseWriter :=
  {| header := ∅; code := 0; buffer := "" |}.

Definition apply (o : wop) (rw : ResponseWriter) : ResponseWriter :=
  match o with
  | OpWriteHeader c => WriteHeader c rw
  | OpWrite buf => Write buf rw
  | OpSet k v => onHeader (Hdr.Set_ k v) rw
  | OpAdd k v => onHeader (Hdr.Add k v) rw
  | OpDel k => onHeader (Hdr.Del k) rw
  end.

(** A sequence of calls, first to last. *)
Definition run (ops : list wop) (rw : ResponseWriter) : ResponseWriter :=
  foldl (λ w o, apply o w) rw ops.

(** The calls that set the status code. *)
Definition isWriteHeader (o : wop) : bool :=
  match o with
  | OpWriteHeader _ => true
  | _ => false
  end.

Definition t_WriteHeader (c : Z) (t : Transport) : Transport :=
  if t_status t =? 0
  then {| t_header := t_header t; t_status := c; t_body := t_body t |}
  else t.

Definition t_Write (buf : string) (t : Transport) : Transport :=
  let t := t_WriteHeader 200 t in
  {| t_header := t_header t; t_status := t_status t; t_body := t_body t ++ buf |}.

(** [Copy] the data of the ResponseWriter to the [http.ResponseWriter]
    [dst]: every header value is added, the code is written when it is not
    0, then the buffer is written. *)
Definition Copy (rw : ResponseWriter) (dst : Transport) : Transport :=
  let h := foldl (λ h kv, foldl (λ h item, Hdr.Add kv.1 item h) h kv.2)
                 (t_header dst) (range_map _ (header rw)) in
  let dst := {| t_header := h; t_status := t_status dst; t_body := t_body dst |} in
  let dst := if negb (code rw =? 0) then t_WriteHeader (code rw) dst else dst in
  t_Write (buffer rw) dst.

End RW.
End RW.
Import RW.

(** ** Requests, handlers and the router *)

(** A value stored in a request context. *)
Inductive ctxValue :=
| VNil
| VParams (ps : Params)
| VString (s : string).

(** The part of [http.Request] the router reads and writes.  [Ctx] is the
    chain of [context.WithValue] pairs, innermost first. *)
Record Request := {
  Method : string;
  Url : URL;
  ReqHeader : HeaderMap;
  Ctx : list (string * ctxValue)
}.

(** A handler, seen from the router: the calls it makes on the writer it is
    given, which may depend on the request.  Handlers that panic, block or
    keep a reference to [Header()] across calls are outside this model. *)
Definition Handle := Request → list wop.

(** [req.WithContext(context.WithValue(req.Context(), key, v))]. *)
Definition WithValue (req : Request) (key : string) (v : ctxValue) : Request :=
  {| Method := Method req; Url := Url req; ReqHeader := ReqHeader req;
     Ctx := (key, v) :: Ctx req |}.

(** [req.Context().Value(key)]; an absent key gives nil. *)
Fixpoint Value_ (ctx : list (string * ctxValue)) (key : string) : ctxValue :=
  match ctx with
  | [] => VNil
  | (k, v) :: ctx' => if String.eqb k key then v else Value_ ctx' key
  end.

(** [req.URL.Path = p]. *)
Definition setPath (req : Request) (p : string) : Request :=
  {| Method := Method req;
     Url := {| Path := p; RawQuery := RawQuery (Url req) |};
     ReqHeader := ReqHeader req; Ctx := Ctx req |}.


(** [ContentLang] returns the language negotiated with the client. *)
Definition ContentLang (req : Request) : outcome string :=
  match Value_ (Ctx req) "UASelectedLang" with
  | VNil => Ok ""
  | VString s => Ok s
  | VParams _ => Panic "interface conversion"
  end.

(** The prefix tree (tree.go) as the router uses it.  [getValue n path
    alloc] is [n.getValue(path, params)], [alloc] telling whether a params
    allocator was passed ([r.getParams]) or nil; it returns the handle, the
    params (nil is [None]), the i18n flag and the trailing-slash
    recommendation. *)
Class Trie := {
  node : Type;
  getValue : node → string → bool → option Handle * option Params * bool * bool;
  findCaseInsensitivePath : node → string → bool → string * bool;
  CleanPath : string → string
}.

(** What the derived context reports from [ctx.Err()]. *)
Inductive ctxErr := Canceled | DeadlineExceeded | OtherErr.

(** What happens between the handler goroutine and the dispatcher's
    [select].  Either the dispatcher receives the completion signal
    ([HandlerDone]), or it takes the [ctx.Done()] branch after the handler
    has made its first [k] calls ([CtxDone]); from then on [sched] says who
    moves next: [true] the detached handler, [false] the dispatcher. *)
Inductive race :=
| HandlerDone
| CtxDone (err : ctxErr) (k : nat) (sched : list bool).

Section Router.
Context {env : GoEnv} {trie : Trie}.

(** The fields of [Router] that decide a response.  [trees] maps a method
    to the root of its tree; a key is present exactly when the Go map holds
    a non-nil root for it.  The params pool only recycles slices.
    [PanicHandler] is left out with the panics of handlers.  The [Context]
    hook only chooses the context whose [Done] channel the dispatcher waits
    on; what that context does is told by a [race]. *)
Record Router := {
  trees : gmap string node;
  RedirectTrailingSlash : bool;
  RedirectFixedPath : bool;
  HandleMethodNotAllowed : bool;
  HandleOPTIONS : bool;
  GlobalOPTIONS : option Handle;
  globalAllowed : string;
  NotFound : option Handle;
  MethodNotAllowed : option Handle;
  SupportedLangs : gset string;
  DefaultLang : string
}.

(** [http.Error(w, error, code)], as in the Go releases of the router's
    time (later ones also delete a few headers first). *)
Definition http_Error (w : ResponseWriter) (error : string) (c : Z) : ResponseWriter :=
  run [OpSet "Content-Type" "text/plain; charset=utf-8";
       OpSet "X-Content-Type-Options" "nosniff";
       OpWriteHeader c;
       OpWrite (error ++ String (ascii_of_nat 10) "")] w.

(** [http.NotFound(w, req)]. *)
Definition http_NotFound (w : ResponseWriter) : ResponseWriter :=
  http_Error w "404 page not found" 404.

(** [http.Redirect(w, req, url, code)]: Location is set, a Content-Type is
    set for GET and HEAD unless one was there, the code is written, and GET
    gets a short body. *)
Definition http_Redirect (w : ResponseWriter) (req : Request) (url : string) (c : Z)
    : ResponseWriter :=
  let hadCT := bool_decide (is_Some (header w !! "Content-Type")) in
  let w := onHeader (Hdr.Set_ "Location" (redirect_target (Path (Url req)) url)) w in
  let w := if negb hadCT && (String.eqb (Method req) "GET" || String.eqb (Method req) "HEAD")
           then onHeader (Hdr.Set_ "Content-Type" "text/html; charset=utf-8") w
           else w in
  let w := WriteHeader c w in
  if negb hadCT && String.eqb (Method req) "GET"
  then Write (redirect_body (redirect_target (Path (Url req)) url) c) w
  else w.

(** [splitPath]: the non-empty [/]-separated elements, each trimmed. *)
Definition splitPath (path : string) : list string :=
  map TrimSpace (filter (λ elem, elem ≠ "") (Split "/" path)).

(** The path [Lookup] hands to the tree (lines 387-401): [path] is the
    argument and [trailSlash] tells whether it ends in a slash. *)
Definition lookupPath (r : Router) (path : string) (trailSlash : bool) : string :=
  let psplit := splitPath path in
  if negb (String.eqb (DefaultLang r) "") then
    let path :=
      match psplit with
      | candidate :: ((_ :: _) as rest) =>
          if bool_decide (candidate ∈ SupportedLangs r)
          then "/" ++ filepath_Join rest
          else path
      | _ => path
      end in
    if trailSlash then path ++ "/" else path
  else path.

(** [Lookup] allows the manual lookup of a method + path combo. *)
Definition Lookup (r : Router) (method path : string)
    : outcome (option Handle * option Params * bool) :=
  match lastByte path with
  | None => Panic "index out of range"
  | Some c =>
      let path := lookupPath r path (Ascii.eqb c "/") in
      match trees r !! method with
      | Some root =>
          match getValue root path true with
          | (None, _, _, tsr) => Ok (None, None, tsr)
          | (Some handle, ps, _, tsr) => Ok (Some handle, ps, tsr)
          end
      | None => Ok (None, None, false)
      end
  end.

(** The sort of [allowed] (lines 455-459), written over any element type
    and comparison [lt]: the inner loop moves the element at [j] to the left
    while it is smaller than its left neighbour. *)
Fixpoint sortInner {A : Type} (lt : A → A → bool) (a : list A) (j : nat) : list A :=
  match j with
  | O => a
  | S j' =>
      match a !! j, a !! j' with
      | Some x, Some y =>
          if lt x y then sortInner lt (<[j' := x]> (<[j := y]> a)) j' else a
      | _, _ => a
      end
  end.

(** The outer loop, [i] running from its start value for [n] rounds. *)
Fixpoint sortOuter {A : Type} (lt : A → A → bool) (a : list A) (i n : nat) : list A :=
  match n with
  | O => a
  | S n' => sortOuter lt (sortInner lt a i) (S i) n'
  end.

Definition insertionSort {A : Type} (lt : A → A → bool) (a : list A) : list A :=
  sortOuter lt a 1 (length a - 1).

Definition sortStrings (a : list string) : list string := insertionSort String.ltb a.

(** What one round of the inner loop computes, on the sorted prefix kept in
    reverse: [x] is put before the first element it is not smaller than. *)
Fixpoint insRev {A : Type} (lt : A → A → bool) (rp : list A) (x : A) : list A :=
  match rp with
  | [] => [x]
  | y :: rp' => if lt x y then y :: insRev lt rp' x else x :: rp
  end.

(** The end of [allowed] (lines 448-464). *)
Definition allowedJoin (allowed : list string) : string :=
  if (0 <? length allowed)%nat
  then Join (sortStrings (allowed ++ ["OPTIONS"])%list) ", "
  else "".

(** [r.trees[method].getValue(path, nil)] returns a handle. *)
Definition hasHandle (r : Router) (method path : string) : bool :=
  match trees r !! method with
  | Some root => bool_decide (is_Some (getValue root path false).1.1.1)
  | None => false
  end.

(** [allowed]: the value of the Allow header for [path], [reqMethod] being
    the method that was tried.  The methods are visited in the order of
    [range r.trees]. *)
Definition allowed (r : Router) (path reqMethod : string) : string :=
  let methods := (range_map _ (trees r)).*1 in
  if String.eqb path "*" then
    if String.eqb reqMethod "" then
      allowedJoin (filter (λ method, method ≠ "OPTIONS") methods)
    else globalAllowed r
  else
    allowedJoin
      (filter (λ method,
                 ¬ (method = reqMethod ∨ method = "OPTIONS")
                 ∧ hasHandle r method path)
              methods).

(** [acceptedLanguage]: the supported language the client prefers, or the
    empty string. *)
Definition acceptedLanguage (r : Router) (req : Request) : string :=
  let params := Hdr.Get "Accept-Language" (ReqHeader req) in
  if String.eqb params "" then ""
  else
    match Negotiation.ParseLang (ToLower params) with
    | Ok parsed => Negotiation.FindBest parsed (SupportedLangs r)
    | _ => ""
    end.

(** [redirLang] redirects to the path prefixed with [lang].  The write to
    [req.URL.Path] is seen by every holder of the request, so the request
    is returned with the writer. *)
Definition redirLang (w : ResponseWriter) (req : Request) (lang : string)
    : ResponseWriter * Request :=
  let c := if negb (String.eqb (Method req) "GET") then 307 else 301 in
  let req := setPath req ("/" ++ lang ++ Path (Url req)) in
  (http_Redirect w req (URL_String (Url req)) c, req).

(** [selectLang] resolves the language of an i18n route.  It returns the
    request and the path as the source does; the writer comes along because
    [redirLang] writes to it. *)
Definition selectLang (r : Router) (w : ResponseWriter) (req : Request)
    : ResponseWriter * Request * string :=
  let path := Path (Url req) in
  let selectedLang :=
    let lang := acceptedLanguage r req in
    if negb (String.eqb lang "") then lang else DefaultLang r in
  if negb (String.eqb (URL_String (Url req)) "*") then
    let trailSlash := (0 <? String.length path)%nat
                      && bool_decide (lastByte path = Some "/"%char) in
    let redirect :=
      let req := WithValue req "UASelectedLang" (VString selectedLang) in
      let '(w, req) := redirLang w req selectedLang in
      (w, req, path) in
    match splitPath path with
    | candidate :: rest =>
        if bool_decide (candidate ∈ SupportedLangs r) then
          let path :=
            match rest with
            | _ :: _ =>
                let path := "/" ++ filepath_Join rest in
                if trailSlash then path ++ "/" else path
            | [] => "/"
            end in
          (w, WithValue req "UASelectedLang" (VString candidate), path)
        else redirect
    | [] => redirect
    end
  else (w, WithValue req "UASelectedLang" (VString selectedLang), path).

(** One step of the dispatcher after its [select] took [ctx.Done()]:
    [w.Reset()], a call made by [http.Error], or the deferred [w.Copy(rw)]. *)
Inductive dstep :=
| DReset
| DCall (o : wop)
| DCopy.

Definition dstep_run (d : dstep) (w : ResponseWriter) (rw : Transport)
    : ResponseWriter * Transport :=
  match d with
  | DReset => (Reset w, rw)
  | DCall o => (apply o w, rw)
  | DCopy => (w, Copy w rw)
  end.

(** The error text and status written for each [ctx.Err()]. *)
Definition cancelError (err : ctxErr) : string * Z :=
  match err with
  | Canceled => ("Context canceled", 500)
  | DeadlineExceeded => ("Request Timeout", 408)
  | OtherErr => ("Internal Server Error", 500)
  end.

(** The dispatcher's steps on the [ctx.Done()] branch (lines 526-549),
    followed by the deferred commit. *)
Definition cancelSteps (err : ctxErr) : list dstep :=
  let '(msg, c) := cancelError err in
  [DReset;
   DCall (OpSet "Content-Type" "text/plain; charset=utf-8");
   DCall (OpSet "X-Content-Type-Options" "nosniff");
   DCall (OpWriteHeader c);
   DCall (OpWrite (msg ++ String (ascii_of_nat 10) ""));
   DCopy].

(** The dispatcher's remaining steps, uninterrupted. *)
Fixpoint finish (ds : list dstep) (w : ResponseWriter) (rw : Transport) : Transport :=
  match ds with
  | [] => rw
  | d :: ds' => let '(w, rw) := dstep_run d w rw in finish ds' w rw
  end.

(** The detached handler (calls [hops] still to make) and the dispatcher
    (steps [ds] still to make) share the writer [w]; [sched] picks who moves.
    A handler that has finished cannot move, and once the dispatcher has
    committed, nothing the handler does reaches the transport. *)
Fixpoint interleave (sched : list bool) (hops : list wop) (ds : list dstep)
    (w : ResponseWriter) (rw : Transport) : Transport :=
  match sched with
  | [] => finish ds w rw
  | b :: sched' =>
      match ds with
      | [] => rw
      | d :: ds' =>
          match b, hops with
          | true, o :: hops' => interleave sched' hops' ds (apply o w) rw
          | _, _ => let '(w, rw) := dstep_run d w rw in interleave sched' hops ds' w rw
          end
      end
  end.

(** Lines 609-614: the 404 outcome. *)
Definition serveNotFound (r : Router) (w : ResponseWriter) (req : Request) : ResponseWriter :=
  match NotFound r with
  | Some h => run (h req) w
  | None => http_NotFound w
  end.

(** Lines 585-614: automatic OPTIONS reply, 405, or 404. *)
Definition serveFallback (r : Router) (w : ResponseWriter) (req : Request) (path : string)
    : ResponseWriter :=
  let notFound := serveNotFound r w req in
  if String.eqb (Method req) "OPTIONS" && HandleOPTIONS r then
    let allow := allowed r path "OPTIONS" in
    if negb (String.eqb allow "") then
      let w := onHeader (Hdr.Set_ "Allow" allow) w in
      match GlobalOPTIONS r with
      | Some h => run (h req) w
      | None => w
      end
    else notFound
  else if HandleMethodNotAllowed r then
    let allow := allowed r path (Method req) in
    if negb (String.eqb allow "") then
      let w := onHeader (Hdr.Set_ "Allow" allow) w in
      match MethodNotAllowed r with
      | Some h => run (h req) w
      | None => http_Error w "Method Not Allowed" 405
      end
    else notFound
  else notFound.

(** The Allow header in the words of the specification: every registered
    method, except the one just tried and OPTIONS, whose tree has a handler
    at the path ... *)
Definition collectedMethods (r : Router) (path reqMethod : string) : list string :=
  filter (λ method, method ≠ reqMethod ∧ method ≠ "OPTIONS" ∧ hasHandle r method path)
         (map_to_list (trees r)).*1.

(** ... with OPTIONS appended, sorted ascending and joined by comma-space;
    none when nothing was collected. *)
Definition allowHeaderSpec (r : Router) (path reqMethod : string) : option string :=
  match collectedMethods r path reqMethod with
  | [] => None
  | ms => Some (Join (merge_sort String.le (ms ++ ["OPTIONS"])%list) ", ")
  end.

(** [ServeHTTP] makes the router implement the [http.Handler] interface.
    [rc] is what the scheduler and the context do if the handler is run in
    its own goroutine; the result is the transport after the deferred
    [w.Copy(rw)]. *)
Definition ServeHTTP (r : Router) (rc : race) (rw : Transport) (req : Request) : Transport :=
  let w := NewResponseWriter in
  let path := Path (Url req) in
  let rawpath := path in
  match trees r !! Method req with
  | Some root =>
      match getValue root path true with
      | (Some handle, ps, i18n, _) =>
          let '(w, req, _) :=
            if negb (String.eqb (DefaultLang r) "") && i18n
            then selectLang r w req
            else (w, req, path) in
          match ps with
          | Some ps =>
              let req := WithValue req "Params" (VParams ps) in
              Copy (run (handle req) w) rw
          | None =>
              let req := WithValue req "Params" VNil in
              match rc with
              | HandlerDone => Copy (run (handle req) w) rw
              | CtxDone err k sched =>
                  interleave sched (drop k (handle req)) (cancelSteps err)
                             (run (take k (handle req)) w) rw
              end
          end
      | (None, _, _, tsr) =>
          if negb (String.eqb (Method req) "CONNECT") && negb (String.eqb path "/") then
            let c := if negb (String.eqb (Method req) "GET") then 308 else 301 in
            if tsr && RedirectTrailingSlash r then
              let req :=
                if (1 <? String.length rawpath)%nat
                   && bool_decide (lastByte rawpath = Some "/"%char)
                then setPath req (dropLast rawpath)
                else setPath req (rawpath ++ "/") in
              Copy (http_Redirect w req (URL_String (Url req)) c) rw
            else if RedirectFixedPath r then
              let '(fixedPath, found) :=
                findCaseInsensitivePath root (CleanPath path) (RedirectTrailingSlash r) in
              if found then
                let req := setPath req fixedPath in
                Copy (http_Redirect w req (URL_String (Url req)) c) rw
              else Copy (serveFallback r w req path) rw
            else Copy (serveFallback r w req path) rw
          else Copy (serveFallback r w req path) rw
      end
  | None => Copy (serveFallback r w req path) rw
  end.

(** The requests [ServeHTTP] answers from line 585 on: no handle was found,
    and neither redirect applied. *)
Definition reachesFallback (r : Router) (req : Request) : bool :=
  let path := Path (Url req) in
  match trees r !! Method req with
  | Some root =>
      match getValue root path true with
      | (Some _, _, _, _) => false
      | (None, _, _, tsr) =>
          if negb (String.eqb (Method req) "CONNECT") && negb (String.eqb path "/") then
            negb (tsr && RedirectTrailingSlash r)
            && negb (RedirectFixedPath r
                     && (findCaseInsensitivePath root (CleanPath path)
                                                 (RedirectTrailingSlash r)).2)
          else true
      end
  | None => true
  end.

(** The requests redirected for their trailing slash (lines 560-568). *)
Definition redirectsTrailingSlash (r : Router) (req : Request) : bool :=
  let path := Path (Url req) in
  match trees r !! Method req with
  | Some root =>
      match getValue root path true with
      | (None, _, _, tsr) =>
          negb (String.eqb (Method req) "CONNECT") && negb (String.eqb path "/")
          && tsr && RedirectTrailingSlash r
      | _ => false
      end
  | None => false
  end.

(** The requests redirected to a fixed path (lines 570-581). *)
Definition redirectsFixedPath (r : Router) (req : Request) : bool :=
  let path := Path (Url req) in
  match trees r !! Method req with
  | Some root =>
      match getValue root path true with
      | (None, _, _, tsr) =>
          negb (String.eqb (Method req) "CONNECT") && negb (String.eqb path "/")
          && negb (tsr && RedirectTrailingSlash r) && RedirectFixedPath r
          && (findCaseInsensitivePath root (CleanPath path) (RedirectTrailingSlash r)).2
      | _ => false
      end
  | None => false
  end.

(** The requests for which [selectLang] calls [redirLang]: the URL is not
    [*] and the path does not start with a supported language. *)
Definition redirectsLang (r : Router) (req : Request) : bool :=
  negb (String.eqb (URL_String (Url req)) "*")
  && match splitPath (Path (Url req)) with
     | candidate :: _ => negb (bool_decide (candidate ∈ SupportedLangs r))
     | [] => true
     end.

End Router.

(** ** The path trie, from its specification

    tree.go is not among the sources at hand, so the tree is rebuilt here
    from its description: nodes with a segment, a kind, ordered children and
    an optional handler, and the walk of [getValue]. *)

Module SpecTrie.

Inductive kind := static | param | catchAll.

(** Modelled from the spec: the Node of the PathTrie, which tree.go defines. *)
#[warnings="-register-all"] Inductive Node :=
| mkNode (segment : string) (k : kind) (children : list Node)
         (handler : option Handle) (i18n : bool) (wildcardChild : bool).

Definition nodeKind (n : Node) : kind :=
  match n with mkNode _ k _ _ _ _ => k end.

Definition nodeSegment (n : Node) : string :=
  match n with mkNode s _ _ _ _ _ => s end.

(** [path] without the prefix [pre], when it starts with it, byte by byte. *)
Fixpoint stripPrefix (pre path : string) : option string :=
  match pre, path with
  | EmptyString, _ => Some path
  | String a pre', String b path' =>
      if Ascii.eqb a b then stripPrefix pre' path' else None
  | String _ _, EmptyString => None
  end.

(** The bytes of [path] up to the next [/], and the rest. *)
Fixpoint upToSlash (path : string) : string * string :=
  match path with
  | EmptyString => (EmptyString, EmptyString)
  | String c path' =>
      if Ascii.eqb c "/" then (EmptyString, path)
      else let '(v, rest) := upToSlash path' in (String c v, rest)
  end.

Definition firstByte (s : string) : option ascii :=
  match s with
  | EmptyString => None
  | String c _ => Some c
  end.

(** The name of a wildcard segment: the segment without its marker. *)
Definition wildName (segment : string) : string :=
  match segment with
  | EmptyString => EmptyString
  | String _ name => name
  end.

(** Modelled from the spec: the walk of [getValue] in tree.go.  A static
    node consumes its segment as a prefix of the path; a param node consumes
    up to the next slash; a catch-all node consumes the remainder.  With
    path left over, the walk goes to the static child whose first byte is
    the next byte of the path, else to the param child, else to the
    catch-all child.  The result is the handler found with its i18n flag and
    the parameters in the order they were met. *)
Fixpoint walk (n : Node) (path : string) (ps : Params) {struct n}
    : option (Handle * bool * Params) :=
  match n with
  | mkNode segment k children handler i18n _ =>
      let here (ps : Params) := (λ h, (h, i18n, ps)) <$> handler in
      let descend (rest : string) (ps : Params) :=
        let fix first (sel : Node → bool) (cs : list Node) :=
          match cs with
          | [] => None
          | c :: cs' => if sel c then Some (walk c rest ps) else first sel cs'
          end in
        match first (λ c, match nodeKind c with
                          | static => bool_decide (firstByte (nodeSegment c) = firstByte rest)
                          | _ => false
                          end) children with
        | Some res => res
        | None =>
            match first (λ c, match nodeKind c with param => true | _ => false end) children with
            | Some res => res
            | None =>
                match first (λ c, match nodeKind c with catchAll => true | _ => false end)
                            children with
                | Some res => res
                | None => None
                end
            end
        end in
      match k with
      | static =>
          match stripPrefix segment path with
          | Some EmptyString => here ps
          | Some rest => descend rest ps
          | None => None
          end
      | param =>
          let '(v, rest) := upToSlash path in
          let ps := (ps ++ [{| Key := wildName segment; Value := v |}])%list in
          match rest with
          | EmptyString => here ps
          | _ => descend rest ps
          end
      | catchAll =>
          here (ps ++ [{| Key := wildName segment; Value := path |}])%list
      end
  end.

(** The path with its trailing slash toggled. *)
Definition toggleSlash (path : string) : string :=
  if bool_decide (lastByte path = Some "/"%char) then dropLast path else path ++ "/".

(** Modelled from the spec: [getValue] of tree.go.  The trailing-slash
    recommendation is set when no handler is found at the path but one is
    after toggling the trailing slash.  Without wildcards, and without an
    allocator for them, the params are nil. *)
Definition getValue (n : Node) (path : string) (alloc : bool)
    : option Handle * option Params * bool * bool :=
  match walk n path [] with
  | Some (h, i18n, ps) =>
      (Some h, match ps with [] => None | _ => if alloc then Some ps else None end, i18n, false)
  | None => (None, None, false, bool_decide (is_Some (walk n (toggleSlash path) [])))
  end.

(** One segment of a pattern. *)
Inductive seg :=
| SegStatic (s : string)
| SegParam (name : string)
| SegCatchAll (name : string).

Inductive mode := InStatic | InParam | InCatchAll.

(** A static segment that ends where a catch-all begins gives its last
    slash to the catch-all, which thus matches the directory index too. *)
Definition closeSeg (m : mode) (cur : string) (beforeCatchAll : bool) : seg :=
  match m with
  | InStatic =>
      SegStatic (if beforeCatchAll && bool_decide (lastByte cur = Some "/"%char)
                 then dropLast cur else cur)
  | InParam => SegParam cur
  | InCatchAll => SegCatchAll cur
  end.

(** Modelled from the spec: the static, named ([:x]) and catch-all ([*x])
    segments of a pattern, left to right, as [addRoute] of tree.go splits
    it.  [m] is the kind of segment being read and [cur] its text so far. *)
Fixpoint segments (pattern : string) (m : mode) (cur : string) : list seg :=
  match pattern with
  | EmptyString =>
      match m, cur with
      | InStatic, EmptyString => []
      | _, _ => [closeSeg m cur false]
      end
  | String c pattern' =>
      match m with
      | InStatic =>
          if Ascii.eqb c ":" then closeSeg m cur false :: segments pattern' InParam ""
          else if Ascii.eqb c "*" then closeSeg m cur true :: segments pattern' InCatchAll ""
          else segments pattern' InStatic (cur ++ String c "")
      | InParam =>
          if Ascii.eqb c "/" then closeSeg m cur false :: segments pattern' InStatic "/"
          else segments pattern' InParam (cur ++ String c "")
      | InCatchAll => segments pattern' InCatchAll (cur ++ String c "")
      end
  end.

Definition segNode (s : seg) (children : list Node) (handler : option Handle) (i18n : bool)
    : Node :=
  let wild := match children with
              | c :: _ => match nodeKind c with static => false | _ => true end
              | [] => false
              end in
  match s with
  | SegStatic t => mkNode t static children handler i18n wild
  | SegParam name => mkNode (String ":" name) param children handler i18n wild
  | SegCatchAll name => mkNode (String "*" name) catchAll children handler i18n wild
  end.

(** The nodes of one pattern, each the only child of the one before; the
    last carries the handler and the i18n flag of the route. *)
Fixpoint chain (segs : list seg) (handler : Handle) (i18n : bool) : option Node :=
  match segs with
  | [] => None
  | [s] => Some (segNode s [] (Some handler) i18n)
  | s :: segs' => (λ child, segNode s [child] None false) <$> chain segs' handler i18n
  end.

(** Modelled from the spec: the tree that [addRoute] of tree.go builds when
    [pattern] is the first route registered under a method. *)
Definition addRoute (pattern : string) (i18n : bool) (handler : Handle) : option Node :=
  chain (segments pattern InStatic "") handler i18n.

(** The tree as the router's [Trie]; the redirect helpers of tree.go and
    path.go stay parameters. *)
Definition trie (fixPath : Node → string → bool → string * bool) (clean : string → string)
    : Trie :=
  Build_Trie Node getValue fixPath clean.

End SpecTrie.

(** ** A concrete environment

    Simple stand-ins for the library functions, exact on the plain ASCII
    inputs of the examples below, with which the model can be run. *)

Module Testbed.

Definition isSpace (c : ascii) : bool :=
  let n := nat_of_ascii c in
  ((9 <=? n) && (n <=? 13) || (n =? 32))%nat.

Fixpoint trimLeft (s : string) : string :=
  match s with
  | String c s' => if isSpace c then trimLeft s' else s
  | EmptyString => EmptyString
  end.

Definition trim (s : string) : string :=
  String.rev (trimLeft (String.rev (trimLeft s))).

Definition lowerByte (c : ascii) : ascii :=
  let n := nat_of_ascii c in
  if ((65 <=? n) && (n <=? 90))%nat then ascii_of_nat (n + 32) else c.

Fixpoint lower (s : string) : string :=
  match s with
  | String c s' => String (lowerByte c) (lower s')
  | EmptyString => EmptyString
  end.

Definition digit (c : ascii) : option Z :=
  let n := nat_of_ascii c in
  if ((48 <=? n) && (n <=? 57))%nat then Some (Z.of_nat (n - 48)) else None.

Fixpoint digits (s : string) (acc : Z) : option Z :=
  match s with
  | EmptyString => Some acc
  | String c s' =>
      match digit c with
      | Some d => digits s' (10 * acc + d)
      | None => None
      end
  end.

(** Decimal qualities with at most three decimals: [1], [0.8], [0.75]. *)
Definition quality (v : string) : option Z :=
  match SplitN2 "." v with
  | [i] => if (String.length i =? 0)%nat then None else (λ n, 1000 * n) <$> digits i 0
  | [i; f] =>
      if (String.length i =? 0)%nat || (3 <? String.length f)%nat then None
      else
        n ← digits i 0;
        m ← digits f 0;
        Some (1000 * n + m * 10 ^ (3 - Z.of_nat (String.length f)))
  | _ => None
  end.

Definition urlString (u : URL) : string :=
  if String.eqb (RawQuery u) "" then Path u else Path u ++ "?" ++ RawQuery u.

Definition quote : string := String (ascii_of_nat 34) "".

Definition newline : string := String (ascii_of_nat 10) "".

Definition statusText (c : Z) : string :=
  if c =? 301 then "Moved Permanently"
  else if c =? 307 then "Temporary Redirect"
  else if c =? 308 then "Permanent Redirect"
  else "".

Definition body (url : string) (c : Z) : string :=
  "<a href=" ++ quote ++ url ++ quote ++ ">" ++ statusText c ++ "</a>." ++ newline ++ newline.

Definition env : GoEnv := {|
  TrimSpace := trim;
  ToLower := lower;
  filepath_Join := λ elems, Join elems "/";
  parseQuality := quality;
  sort_Sort := λ A lt l, insertionSort lt l;
  range_map := λ V m, map_to_list m;
  range_set := elements;
  URL_String := urlString;
  redirect_target := λ _ url, url;
  redirect_body := body
|}.

(** The specified tree without the redirect helpers of tree.go. *)
Definition trie : Trie := SpecTrie.trie (λ _ _ _, ("", false)) id.

(** A router as [New] returns it, with the given trees and languages. *)
Definition router (ts : gmap string SpecTrie.Node) (langs : gset string) (defaultLang : string)
    : @Router trie :=
  @Build_Router trie ts true true true true None "" None None langs defaultLang.

(** The tree of a single route; an empty tree if the pattern has no segment. *)
Definition route (pattern : string) (i18n : bool) (h : Handle) : SpecTrie.Node :=
  default (SpecTrie.mkNode "" SpecTrie.static [] None false false)
          (SpecTrie.addRoute pattern i18n h).

Definition request (method path : string) (hdr : HeaderMap) : Request :=
  {| Method := method; Url := {| Path := path; RawQuery := "" |};
     ReqHeader := hdr; Ctx := [] |}.

(** A transport nothing was written to. *)
Definition transport : Transport :=
  {| t_header := ∅; t_status := 0; t_body := "" |}.

(** The router of a single route. *)
Definition single (method pattern : string) (i18n : bool) (h : Handle)
    (langs : gset string) (defaultLang : string) : @Router trie :=
  router {[method := route pattern i18n h]} langs defaultLang.

(** A handler that answers 200 with a short body. *)
Definition hello : Handle := λ _, [OpWriteHeader 200; OpWrite "hello"].

(** A handler that writes its body in two calls. *)
Definition halves : Handle := λ _, [OpWrite "first half, "; OpWrite "second half"].

End Testbed.


(** ** More of the router and of the negotiator *)

(** [ByName] returns the value of the first Param whose key matches the
    given name; if no matching Param is found, the empty string. *)
Fixpoint ByName (ps : Params) (name : string) : string :=
  match ps with
  | [] => ""
  | p :: ps' => if String.eqb (Key p) name then Value p else ByName ps' name
  end.

(** Slices of a string: [s[n:]] and [s[:n]], for [n] within [len(s)]. *)
Module GoSlices.


Fixpoint upto (n : nat) (s : string) : string :=
  match n, s with
  | O, _ => EmptyString
  | S n', String c s' => String c (upto n' s')
  | S _, EmptyString => EmptyString
  end.

End GoSlices.

(** [Subtype] (negotiator): the subtype of a media type with parameters.
    [len(s) <= 0] cannot happen, [strings.Split] never returning an empty
    slice for a non-empty separator. *)
Definition Subtype (typeparms : string) : outcome string :=
  match Split ";" typeparms with
  | [] => Err "invalid type/parameter"
  | s0 :: _ =>
      match Split "/" s0 with
      | [_; sub] => Ok sub
      | _ => Err "subtype not found"
      end
  end.

(** What registration takes from tree.go: [newNode] is [new(node)], and
    [addRoute n path i18n handle] is the node after [n.addRoute(path, i18n,
    handle)], or the panic it raises. *)
Class TrieBuild {trie : Trie} := {
  newNode : node;
  addRoute : node → string → bool → Handle → outcome node
}.

Section Registration.
Context {env : GoEnv} {trie : Trie} {build : TrieBuild}.

(** [New] returns a new initialized Router. *)
Definition New : Router :=
  {| trees := ∅;
     RedirectTrailingSlash := true;
     RedirectFixedPath := true;
     HandleMethodNotAllowed := true;
     HandleOPTIONS := true;
     GlobalOPTIONS := None;
     globalAllowed := "";
     NotFound := None;
     MethodNotAllowed := None;
     SupportedLangs := {["en"]};
     DefaultLang := "" |}.

(** [r.trees = ts] and [r.globalAllowed = allow], the rest as it was. *)
Definition withTrees (r : Router) (ts : gmap string node) (allow : string) : Router :=
  {| trees := ts;
     RedirectTrailingSlash := RedirectTrailingSlash r;
     RedirectFixedPath := RedirectFixedPath r;
     HandleMethodNotAllowed := HandleMethodNotAllowed r;
     HandleOPTIONS := HandleOPTIONS r;
     GlobalOPTIONS := GlobalOPTIONS r;
     globalAllowed := allow;
     NotFound := NotFound r;
     MethodNotAllowed := MethodNotAllowed r;
     SupportedLangs := SupportedLangs r;
     DefaultLang := DefaultLang r |}.

(** [Router.Handle] registers a new request handle with the given path and
    method; a nil handle is [None].  The router is returned as the call
    leaves it: a method without a tree gets a new root, and then the
    server-wide Allow value is computed anew.  The bookkeeping of the params
    pool (maxParams) is left out with the pool. *)
Definition Router_Handle (r : Router) (method path : string) (i18n : bool)
    (handle : option Handle) : outcome Router :=
  if String.eqb method "" then Panic "method must not be empty"
  else if (String.length path <? 1)%nat
          || negb (bool_decide (String.get 0 path = Some "/"%char))
  then Panic ("path must begin with '/' in path '" ++ path ++ "'")
  else
    match handle with
    | None => Panic "handle must not be nil"
    | Some h =>
        let '(root, r) :=
          match trees r !! method with
          | Some root => (root, r)
          | None =>
              let r := withTrees r (<[method := newNode]> (trees r)) (globalAllowed r) in
              (newNode, withTrees r (trees r) (allowed r "*" ""))
          end in
        root ← addRoute root path i18n h;
        Ok (withTrees r (<[method := root]> (trees r)) (globalAllowed r))
    end.


Definition HEAD (r : Router) (path : string) (i18n : bool) (handle : option Handle) :=
  Router_Handle r "HEAD" path i18n handle.

Definition OPTIONS (r : Router) (path : string) (handle : option Handle) :=
  Router_Handle r "OPTIONS" path false handle.

Definition POST (r : Router) (path : string) (i18n : bool) (handle : option Handle) :=
  Router_Handle r "POST" path i18n handle.

Definition PUT (r : Router) (path : string) (i18n : bool) (handle : option Handle) :=
  Router_Handle r "PUT" path i18n handle.

Definition PATCH (r : Router) (path : string) (handle : option Handle) :=
  Router_Handle r "PATCH" path false handle.

Definition DELETE (r : Router) (path : string) (handle : option Handle) :=
  Router_Handle r "DELETE" path false handle.



(** The Allow value for the whole server, in terms of the set of registered
    methods: those but OPTIONS, then OPTIONS, sorted and joined; empty when
    there is none but OPTIONS. *)
Definition serverAllowSpec (methods : gset string) : string :=
  match elements (methods ∖ {["OPTIONS"]}) with
  | [] => ""
  | ms => Join (merge_sort String.le (ms ++ ["OPTIONS"])%list) ", "
  end.

End Registration.

(** ** Listing the routes (HandlerPaths)

    [iter] reads four fields of a node of tree.go: [path], [nType],
    [handle] and [children]; they are the segment, kind, handler and
    children of [SpecTrie.Node]. *)

Module Listing.
Import SpecTrie.

(** [strings.TrimSuffix(path, "/")]. *)
Definition TrimSuffixSlash (path : string) : string :=
  if bool_decide (lastByte path = Some "/"%char) then dropLast path else path.

(** [strings.LastIndex(s, sep)] for a one-byte separator: the index of its
    last occurrence, or -1. *)
Fixpoint LastIndex (sep : ascii) (s : string) : Z :=
  match s with
  | EmptyString => -1
  | String c s' =>
      let i := LastIndex sep s' in
      if 0 <=? i then i + 1 else if Ascii.eqb c sep then 0 else -1
  end.

(** One call of the visitor: method, path and handle. *)
Definition visit : Type := string * string * Handle.

(** The visitor is a Go closure: its answer may depend on all the calls
    made to it so far, so it is given them, the current one last. *)
Definition visitor : Type := list visit → bool.

(** A loop that stops at the first item for which [it] answers false;
    [seen] is the calls made to the visitor so far. *)
Definition eachUntil {A : Type} (it : A → list visit → list visit * bool)
    : list A → list visit → list visit * bool :=
  fix each (l : list A) (seen : list visit) : list visit * bool :=
    match l with
    | [] => (seen, true)
    | x :: l' =>
        let '(seen, go) := it x seen in
        if go then each l' seen else (seen, false)
    end.

(** [iter]: the visitor is called on the nodes that carry a handle, a node
    before its children, until it answers false.  The result is the calls
    made and whether to go on. *)
Fixpoint iter (params : bool) (method path : string) (n : Node) (f : visitor)
    (seen : list visit) {struct n} : list visit * bool :=
  match n with
  | mkNode segment k children handler _ _ =>
      let call (p : string) (h : Handle) :=
        let seen := (seen ++ [(method, p, h)])%list in (seen, f seen) in
      let below := eachUntil (λ child, iter params method (path ++ segment) child f) children in
      match handler with
      | Some h =>
          match params, k with
          | false, catchAll => call path h
          | false, param =>
              let path := TrimSuffixSlash path in
              let i := LastIndex "/" path in
              let path := if 1 <=? i then GoSlices.upto (Z.to_nat i) path else path in
              call path h
          | _, _ =>
              let '(seen, go) := call (path ++ segment) h in
              if go then below seen else (seen, false)
          end
      | None => below seen
      end
  end.

(** [HandlerPaths] iterates over all handlers' paths; if the visitor
    returns false it stops.  The result is the calls made to the visitor. *)
Definition HandlerPaths {env : GoEnv} (fixPath : Node → string → bool → string * bool)
    (clean : string → string) (r : @Router (SpecTrie.trie fixPath clean))
    (params : bool) (f : visitor) : list visit :=
  (eachUntil (λ mn, iter params mn.1 "" mn.2 f) (range_map Node (trees r)) []).1.

(** [find]: whether a node that carries a handle answers to [name]; a
    catch-all node by the path above it, a parameter node by a path above it
    that [name] begins, any other node by its own path. *)
Fixpoint find (name path : string) (n : Node) : bool :=
  match n with
  | mkNode segment k children handler _ _ =>
      let below := existsb (find name (path ++ segment)) children in
      match handler with
      | Some _ =>
          match k with
          | catchAll => String.eqb name path
          | param => HasPrefix path name
          | static => String.eqb name (path ++ segment) || below
          end
      | None => below
      end
  end.

(** [PathExist] returns true if a path exists. *)
Definition PathExist {env : GoEnv} (fixPath : Node → string → bool → string * bool)
    (clean : string → string) (r : @Router (SpecTrie.trie fixPath clean))
    (name : string) : bool :=
  existsb (λ mn, find name "" mn.2) (range_map Node (trees r)).

(** A tree without parameter and catch-all nodes. *)
Fixpoint wildFree (n : Node) : bool :=
  match n with
  | mkNode _ k children _ _ _ =>
      match k with static => true | _ => false end && forallb wildFree children
  end.

(** The nodes of a tree that carry a handle. *)
Fixpoint handled (n : Node) : nat :=
  match n with
  | mkNode _ _ children handler _ _ =>
      (match handler with Some _ => 1 | None => 0 end
       + sum_list (map handled children))%nat
  end.


End Listing.

(** ** What a sequence of calls leaves in a writer *)



(** ** A concrete tree builder

    Enough of a builder to run a registration on a concrete router: it
    builds the tree of the first route of a method, from the specified
    tree, and has nothing to say on a second route of the same method. *)

Module Builder.

Definition emptyNode : SpecTrie.Node :=
  SpecTrie.mkNode "" SpecTrie.static [] None false false.

Definition firstRoute (root : SpecTrie.Node) (path : string) (i18n : bool) (h : Handle)
    : outcome SpecTrie.Node :=
  match root with
  | SpecTrie.mkNode EmptyString _ [] None _ _ =>
      match SpecTrie.addRoute path i18n h with
      | Some n => Ok n
      | None => Panic "no segment in the path"
      end
  | _ => Panic "a second route of a method is beyond this builder"
  end.

Definition build : @TrieBuild Testbed.trie :=
  @Build_TrieBuild Testbed.trie emptyNode firstRoute.

End Builder.

(** * Properties *)

Open Scope list_scope.

Ltac in_app :=
  apply elem_of_app; first [by left | right; by apply list_elem_of_singleton].


(** ** The binary search of package sort *)

(** The loop of [sort.Search] needs no more fuel than the width of its
    interval: with that much, more fuel changes nothing, so [Search] is the
    value the Go loop ends with. *)
Lemma half_between (i j : nat) : (i < j)%nat → (i ≤ (i + j) / 2 < j)%nat.
Proof.
  intros Hij. split.
  - apply Nat.div_le_lower_bound; lia.
  - apply Nat.Div0.div_lt_upper_bound; lia.
Qed.

Lemma Search_loop_fuel (f : nat → bool) (fuel fuel' i j : nat) :
  (j - i ≤ fuel)%nat → (j - i ≤ fuel')%nat →
  GoSort.Search_loop fuel f i j = GoSort.Search_loop fuel' f i j.
Proof.
  revert fuel' i j. induction fuel as [|fuel IH]; intros fuel' i j Hf Hf'.
  - destruct fuel' as [|fuel']; cbn [GoSort.Search_loop]; [done|].
    destruct (i <? j)%nat eqn:Hij; [|done]. apply Nat.ltb_lt in Hij. lia.
  - destruct fuel' as [|fuel']; cbn [GoSort.Search_loop].
    + destruct (i <? j)%nat eqn:Hij; [|done]. apply Nat.ltb_lt in Hij. lia.
    + destruct (i <? j)%nat eqn:Hij; [|done]. apply Nat.ltb_lt in Hij.
      pose proof (half_between i j Hij) as Hh.
      destruct (negb (f ((i + j) / 2)%nat)); apply IH; lia.
Qed.

Lemma Search_fuel (f : nat → bool) (n fuel : nat) :
  (n ≤ fuel)%nat → GoSort.Search_loop fuel f 0 n = GoSort.Search n f.
Proof. intros Hn. apply Search_loop_fuel; lia. Qed.

(** The index [sort.Search] returns lies within the slice or at its end. *)
Lemma Search_loop_bound (f : nat → bool) (fuel i j : nat) :
  (i ≤ j)%nat → (i ≤ GoSort.Search_loop fuel f i j ≤ j)%nat.
Proof.
  revert i j. induction fuel as [|fuel IH]; intros i j Hij; cbn [GoSort.Search_loop]; [lia|].
  destruct (i <? j)%nat eqn:Hlt; [|lia]. apply Nat.ltb_lt in Hlt.
  pose proof (half_between i j Hlt) as Hh.
  destruct (negb (f ((i + j) / 2)%nat)).
  - specialize (IH ((i + j) / 2 + 1)%nat j). lia.
  - specialize (IH i ((i + j) / 2)%nat). lia.
Qed.

(** ** The insertion sort of [allowed] *)

Section InsertionSort.
Context {A : Type} (lt : A → A → bool).

Lemma length_insRev (rp : list A) (x : A) : length (insRev lt rp x) = S (length rp).
Proof.
  induction rp as [|y rp IH]; simpl; [done|].
  destruct (lt x y); simpl; by rewrite ?IH.
Qed.

Lemma insRev_perm (rp : list A) (x : A) : insRev lt rp x ≡ₚ x :: rp.
Proof.
  induction rp as [|y rp IH]; simpl; [done|].
  destruct (lt x y); [|done].
  rewrite IH. apply Permutation_swap.
Qed.

(** The inner loop, run at the end of a prefix, is [insRev]. *)
Lemma sortInner_insRev (rp : list A) (x : A) (post : list A) :
  sortInner lt (reverse rp ++ x :: post) (length rp) = reverse (insRev lt rp x) ++ post.
Proof.
  revert post. induction rp as [|y rp IH]; intros post; [done|].
  cbn [length sortInner insRev].
  rewrite reverse_cons, <- (assoc_L (++)). cbn [app].
  assert (Hlen : length (reverse rp) = length rp) by apply length_reverse.
  replace ((reverse rp ++ y :: x :: post) !! S (length rp)) with (Some x).
  2:{ rewrite lookup_app_r by lia. rewrite Hlen.
      by replace (S (length rp) - length rp)%nat with 1%nat by lia. }
  replace ((reverse rp ++ y :: x :: post) !! length rp) with (Some y).
  2:{ rewrite lookup_app_r by lia. rewrite Hlen. by rewrite Nat.sub_diag. }
  destruct (lt x y).
  - replace (<[length rp:=x]> (<[S (length rp):=y]> (reverse rp ++ y :: x :: post)))
      with (reverse rp ++ x :: y :: post).
    + rewrite IH, reverse_cons, <- (assoc_L (++)). done.
    + rewrite !insert_app_r_alt by lia. rewrite Hlen, Nat.sub_diag.
      by replace (S (length rp) - length rp)%nat with 1%nat by lia.
  - by rewrite !reverse_cons, <- !(assoc_L (++)).
Qed.

Lemma sortOuter_foldl (rest rp : list A) :
  sortOuter lt (reverse rp ++ rest) (length rp) (length rest)
  = reverse (foldl (insRev lt) rp rest).
Proof.
  revert rp. induction rest as [|x rest IH]; intros rp; simpl.
  - by rewrite (right_id_L [] (++)).
  - rewrite sortInner_insRev, <- (length_insRev rp x). apply IH.
Qed.

Lemma insertionSort_foldl (x : A) (rest : list A) :
  insertionSort lt (x :: rest) = reverse (foldl (insRev lt) [x] rest).
Proof.
  unfold insertionSort. cbn [length]. rewrite Nat.sub_1_r. cbn [Nat.pred].
  apply (sortOuter_foldl rest [x]).
Qed.

Lemma foldl_insRev_perm (rest rp : list A) : foldl (insRev lt) rp rest ≡ₚ rp ++ rest.
Proof.
  revert rp. induction rest as [|x rest IH]; intros rp; simpl.
  - by rewrite (right_id_L [] (++)).
  - rewrite IH, insRev_perm. apply Permutation_middle.
Qed.

(** The sort only swaps: whatever [lt] is, the result is a permutation. *)
Lemma insertionSort_perm (l : list A) : insertionSort lt l ≡ₚ l.
Proof.
  destruct l as [|x rest]; [done|].
  rewrite insertionSort_foldl, reverse_Permutation. apply (foldl_insRev_perm rest [x]).
Qed.

(** With [lt] the strict part of a total order [R], the result is sorted. *)
Context (R : relation A).
Hypothesis lt_R : ∀ x y, lt x y = true → R x y.
Hypothesis not_lt_R : ∀ x y, lt x y = false → R y x.

Lemma insRev_HdRel (rp : list A) (x y : A) :
  HdRel (flip R) y rp → R x y → HdRel (flip R) y (insRev lt rp x).
Proof.
  intros Hhd Hxy. destruct rp as [|z rp]; simpl.
  - by constructor.
  - destruct (lt x z); constructor; [|done]. by inversion Hhd.
Qed.

Lemma insRev_Sorted (rp : list A) (x : A) :
  Sorted (flip R) rp → Sorted (flip R) (insRev lt rp x).
Proof.
  induction 1 as [|y rp Hs IH Hhd]; simpl.
  - by repeat constructor.
  - destruct (lt x y) eqn:Hlt.
    + constructor; [done|]. apply insRev_HdRel; auto.
    + constructor; [by constructor|]. constructor. by apply not_lt_R.
Qed.

Lemma foldl_insRev_Sorted (rest rp : list A) :
  Sorted (flip R) rp → Sorted (flip R) (foldl (insRev lt) rp rest).
Proof.
  revert rp. induction rest as [|x rest IH]; intros rp Hs; simpl; [done|].
  by apply IH, insRev_Sorted.
Qed.

Lemma insertionSort_Sorted (l : list A) : Sorted R (insertionSort lt l).
Proof.
  destruct l as [|x rest]; [constructor|].
  rewrite insertionSort_foldl.
  assert (Hs : Sorted (flip R) (foldl (insRev lt) [x] rest)).
  { apply foldl_insRev_Sorted. by repeat constructor. }
  exact (Sorted_reverse (flip R) _ Hs).
Qed.

End InsertionSort.

Lemma ltb_le (x y : string) : String.ltb x y = true → String.le x y.
Proof.
  unfold String.ltb, String.le, String.leb. by destruct (x ?= y)%string.
Qed.

Lemma not_ltb_le (x y : string) : String.ltb x y = false → String.le y x.
Proof.
  unfold String.ltb, String.le, String.leb. rewrite (String.compare_antisym y x).
  by destruct (x ?= y)%string.
Qed.

(** The sort of [allowed] is the ascending lexicographic sort. *)
Lemma sortStrings_merge_sort (l : list string) : sortStrings l = merge_sort String.le l.
Proof.
  apply (Sorted_unique String.le).
  - apply (insertionSort_Sorted _ _ ltb_le not_ltb_le).
  - apply Sorted_merge_sort, _.
  - unfold sortStrings. by rewrite insertionSort_perm, merge_sort_Permutation.
Qed.

Lemma merge_sort_perm (l1 l2 : list string) :
  l1 ≡ₚ l2 → merge_sort String.le l1 = merge_sort String.le l2.
Proof.
  intros Hp. apply (Sorted_unique String.le); try apply Sorted_merge_sort, _.
  by rewrite !merge_sort_Permutation.
Qed.

Lemma Join_not_empty (l : list string) (x : string) :
  x ∈ l → x ≠ "" → Join l ", " ≠ "".
Proof.
  destruct l as [|y [|z l]]; simpl.
  - by intros ?%elem_of_nil.
  - by intros ->%list_elem_of_singleton.
  - intros _ _. by destruct y.
Qed.

(** ** The Allow header (C4) *)

Section Allow.
Context {env : GoEnv} {laws : GoEnvLaws} {trie : Trie}.

Lemma allowedJoin_spec (ms : list string) :
  allowedJoin ms
  = match ms with
    | [] => ""
    | _ => Join (merge_sort String.le (ms ++ ["OPTIONS"])) ", "
    end.
Proof.
  unfold allowedJoin. destruct ms as [|m ms]; [done|].
  cbn [length Nat.ltb Nat.leb]. by rewrite sortStrings_merge_sort.
Qed.

Lemma allowedJoin_perm (ms1 ms2 : list string) :
  ms1 ≡ₚ ms2 → allowedJoin ms1 = allowedJoin ms2.
Proof.
  intros Hp. rewrite !allowedJoin_spec.
  destruct ms1 as [|m1 ms1], ms2 as [|m2 ms2]; try done.
  - by apply Permutation_nil_cons in Hp.
  - symmetry in Hp. by apply Permutation_nil_cons in Hp.
  - f_equal. apply merge_sort_perm. by rewrite Hp.
Qed.

(** [allowed] computes the header of the specification, whatever the order
    in which the methods of [r.trees] are ranged over. *)
Lemma allowed_spec (r : Router) (path reqMethod : string) :
  path ≠ "*" →
  allowed r path reqMethod = default "" (allowHeaderSpec r path reqMethod).
Proof.
  intros Hpath. unfold allowed, allowHeaderSpec.
  apply String.eqb_neq in Hpath as ->.
  set (P := λ method : string, ¬ (method = reqMethod ∨ method = "OPTIONS")
                               ∧ hasHandle r method path).
  rewrite (allowedJoin_perm (filter P (range_map node (trees r)).*1)
                            (collectedMethods r path reqMethod)).
  - rewrite allowedJoin_spec. by destruct (collectedMethods r path reqMethod).
  - unfold collectedMethods. rewrite (range_map_perm node (trees r)).
    erewrite list_filter_iff; [done|]. intros m. unfold P. tauto.
Qed.

Lemma allowHeaderSpec_not_empty (r : Router) (path reqMethod allow : string) :
  allowHeaderSpec r path reqMethod = Some allow → allow ≠ "".
Proof.
  unfold allowHeaderSpec. destruct (collectedMethods r path reqMethod) as [|m ms]; [done|].
  intros [= <-]. apply (Join_not_empty _ "OPTIONS"); [|done].
  rewrite merge_sort_Permutation. set_solver.
Qed.

Lemma ServeHTTP_fallback (r : Router) (rc : race) (rw : Transport) (req : Request) :
  reachesFallback r req = true →
  ServeHTTP r rc rw req = Copy (serveFallback r NewResponseWriter req (Path (Url req))) rw.
Proof.
  unfold reachesFallback, ServeHTTP.
  destruct (trees r !! Method req) as [root|]; [|done].
  destruct (getValue root (Path (Url req)) true) as [[[[h|] ps] i18n] tsr]; [done|].
  destruct (negb (Method req =? "CONNECT")%string && negb (Path (Url req) =? "/")%string);
    [|done].
  destruct (tsr && RedirectTrailingSlash r); [done|].
  destruct (RedirectFixedPath r); [|done].
  by destruct (findCaseInsensitivePath _ _ _) as [fixedPath [|]].
Qed.

(** C4: a request that reaches the automatic OPTIONS reply or the 405 reply
    on a concrete path gets, as its Allow header, the ascending sort of the
    registered methods other than the one tried and OPTIONS that have a
    handler at the path, plus OPTIONS, joined by comma-space: the configured
    handler (or the default reply) runs on a writer whose Allow header is
    exactly that, and the result is committed.  When no method was collected,
    no Allow header is set and the 404 outcome is committed. *)
Theorem C4_allow_header (r : Router) (rc : race) (rw : Transport) (req : Request) :
  let path := Path (Url req) in
  let options := String.eqb (Method req) "OPTIONS" && HandleOPTIONS r in
  path ≠ "*" →
  reachesFallback r req = true →
  options = true ∨ HandleMethodNotAllowed r = true →
  allowed r path (Method req) = default "" (allowHeaderSpec r path (Method req))
  ∧ ServeHTTP r rc rw req =
      match allowHeaderSpec r path (Method req) with
      | Some allow =>
          let w := onHeader (Hdr.Set_ "Allow" allow) NewResponseWriter in
          let w :=
            if options then
              match GlobalOPTIONS r with
              | Some h => run (h req) w
              | None => w
              end
            else
              match MethodNotAllowed r with
              | Some h => run (h req) w
              | None => http_Error w "Method Not Allowed" 405
              end in
          Copy w rw
      | None => Copy (serveNotFound r NewResponseWriter req) rw
      end
  ∧ ∀ allow, allowHeaderSpec r path (Method req) = Some allow →
      header (onHeader (Hdr.Set_ "Allow" allow) NewResponseWriter) !! "Allow" = Some [allow].
Proof.
  intros path options Hpath Hreach Hmode.
  split; [by apply allowed_spec|]. split; [|intros allow _; apply lookup_insert_eq].
  rewrite ServeHTTP_fallback by done. fold path. unfold serveFallback. fold options.
  assert (Hallow : ∀ m, (if options then m = "OPTIONS" else m = Method req) →
            allowed r path m = default "" (allowHeaderSpec r path (Method req))).
  { intros m Hm. subst options.
    destruct (Method req =? "OPTIONS")%string eqn:Heq; simpl in Hm.
    - apply String.eqb_eq in Heq. rewrite Heq.
      destruct (HandleOPTIONS r); subst m; rewrite <- ?Heq; by apply allowed_spec.
    - subst m. by apply allowed_spec. }
  destruct options.
  - rewrite (Hallow "OPTIONS") by done.
    destruct (allowHeaderSpec r path (Method req)) as [allow|] eqn:Hspec; [|done].
    apply allowHeaderSpec_not_empty, String.eqb_neq in Hspec. simpl. by rewrite Hspec.
  - destruct Hmode as [|Hmna]; [done|]. rewrite Hmna.
    rewrite (Hallow (Method req)) by done.
    destruct (allowHeaderSpec r path (Method req)) as [allow|] eqn:Hspec; [|done].
    apply allowHeaderSpec_not_empty, String.eqb_neq in Hspec. simpl. by rewrite Hspec.
Qed.

End Allow.

(** ** Committing a response *)

Section Commit.
Context {env : GoEnv}.

Lemma Copy_status (w : ResponseWriter) (rw : Transport) :
  t_status (Copy w rw)
  = if t_status rw =? 0 then (if code w =? 0 then 200 else code w) else t_status rw.
Proof.
  unfold Copy, t_Write, t_WriteHeader. simpl.
  destruct (code w =? 0) eqn:Hc; simpl.
  - by destruct (t_status rw =? 0).
  - destruct (t_status rw =? 0) eqn:Hs; simpl; [by rewrite Hc | by rewrite Hs].
Qed.



End Commit.

(** ** Redirect codes (C5) *)

Section Redirects.
Context {env : GoEnv} {trie : Trie}.


(** When the language prefix is missing, [selectLang] is [redirLang]. *)
Lemma selectLang_redirects (r : Router) (w : ResponseWriter) (req : Request) :
  redirectsLang r req = true →
  ∃ lang,
    selectLang r w req
    = ((redirLang w (WithValue req "UASelectedLang" (VString lang)) lang).1,
       (redirLang w (WithValue req "UASelectedLang" (VString lang)) lang).2,
       Path (Url req)).
Proof.
  unfold redirectsLang, selectLang. intros [Hstar Hsplit]%andb_prop. rewrite Hstar.
  eexists. destruct (splitPath (Path (Url req))) as [|candidate rest]; [done|].
  apply negb_true_iff in Hsplit. by rewrite Hsplit.
Qed.



End Redirects.

(** ** Family fallback in ParseLang (C7) *)

Section FamilyFallback.
Context {env : GoEnv} {laws : GoEnvLaws}.
Import Negotiation.

Lemma sortIfNeeded_perm (tps : TypeParams) : sortIfNeeded tps ≡ₚ tps.
Proof. unfold sortIfNeeded. case_match; [done|]. apply sort_Sort_perm. Qed.

(** The binary search of [IsPresent] can miss a tag that is there, but it
    never finds one that is not. *)
Lemma IsPresent_true (tps : TypeParams) (t : string) :
  IsPresent tps t = true → ∃ tp, tp ∈ tps ∧ Typ tp = t.
Proof.
  unfold IsPresent. intros [_ Hat]%andb_prop.
  destruct (tps !! GoSort.Search _ _) as [tp|] eqn:Hi; simpl in Hat; [|done].
  exists tp. split; [by eapply list_elem_of_lookup_2 | by apply String.eqb_eq].
Qed.

Lemma IsPresent_absent (tps : TypeParams) (t : string) :
  (∀ x, x ∈ tps → Typ x ≠ t) → IsPresent tps t = false.
Proof.
  intros Habs. destruct (IsPresent tps t) eqn:Hp; [|done].
  apply IsPresent_true in Hp as (tp & Hin & Heq). by destruct (Habs tp Hin).
Qed.

Lemma filter_none {A : Type} (P : A → Prop) `{∀ x, Decision (P x)} (l : list A) :
  (∀ x, x ∈ l → ¬ P x) → filter P l = [].
Proof.
  induction l as [|y l IH]; intros Hl; [done|].
  rewrite filter_cons_False by (apply Hl; left). apply IH. intros x Hx. apply Hl. by right.
Qed.

Lemma fallbackInv_empty (tps : TypeParams) : fallbackInv tps ∅ [].
Proof. split; [by intros k x ?%lookup_empty_Some | by intros v k ?%elem_of_nil]. Qed.

Lemma fallbackInv_step (tps : TypeParams) (m : gmap string TypeParam) (seen : TypeParams)
    (tp : TypeParam) :
  fallbackInv tps m seen → fallbackInv tps (fallbackStep tps m tp) (seen ++ [tp]).
Proof.
  intros [Hentries Hall]. unfold fallbackStep.
  assert (Hkeep : familyOf tp = None ∨ (∃ k, familyOf tp = Some k ∧ IsPresent tps k = true) →
                  fallbackInv tps m (seen ++ [tp])).
  { intros Hskip. split.
    - intros k x Hk. destruct (Hentries k x Hk) as (Ht & Hp & (v & Hv & Hf & Hq) & Hmax).
      split_and!; [done|done|exists v; split_and!; [in_app|done..]|].
      intros v' [Hv'| ->%list_elem_of_singleton]%elem_of_app Hf'; [by apply Hmax|].
      destruct Hskip as [Hnone|(k' & Hk' & Hp')]; congruence.
    - intros v k [Hv| ->%list_elem_of_singleton]%elem_of_app Hf Hp; [by eapply Hall|].
      destruct Hskip as [Hnone|(k' & Hk' & Hp')]; congruence. }
  destruct (familyOf tp) as [s0|] eqn:Hfam; [|by apply Hkeep; left].
  destruct (IsPresent tps s0) eqn:Hpres; simpl; [by apply Hkeep; right; exists s0|].
  clear Hkeep.
  destruct (m !! s0) as [x|] eqn:Hx.
  - destruct (Hentries s0 x Hx) as (Ht & _ & (v0 & Hv0 & Hf0 & Hq0) & Hmax0).
    destruct (Q tp >? Q x) eqn:Hgt.
    + apply Z.gtb_lt in Hgt. split.
      * intros k y Hy. destruct (decide (k = s0)) as [->|Hne].
        -- rewrite lookup_insert_eq in Hy. injection Hy as <-. simpl.
           split_and!; [done|done|exists tp; split_and!; [in_app|done..]|].
           intros v [Hv| ->%list_elem_of_singleton]%elem_of_app Hf; [|lia].
           specialize (Hmax0 v Hv Hf). lia.
        -- rewrite lookup_insert_ne in Hy by done.
           destruct (Hentries k y Hy) as (Hty & Hp & (v & Hv & Hf & Hq) & Hmax).
           split_and!; [done|done|exists v; split_and!; [in_app|done..]|].
           intros v' [Hv'| ->%list_elem_of_singleton]%elem_of_app Hf'; [by apply Hmax|].
           congruence.
      * intros v k Hv Hf Hp. destruct (decide (k = s0)) as [->|Hne].
        -- rewrite lookup_insert_eq. eauto.
        -- rewrite lookup_insert_ne by done.
           apply elem_of_app in Hv as [Hv| ->%list_elem_of_singleton]; [by eapply Hall|].
           congruence.
    + assert (Hle : Q tp ≤ Q x).
      { destruct (Z.gtb_spec (Q tp) (Q x)); [done|lia]. }
      split.
      * intros k y Hy.
        destruct (Hentries k y Hy) as (Hty & Hp & (v & Hv & Hf & Hq) & Hmax).
        split_and!; [done|done|exists v; split_and!; [in_app|done..]|].
        intros v' [Hv'| ->%list_elem_of_singleton]%elem_of_app Hf'; [by apply Hmax|].
        assert (k = s0) as -> by congruence. by simplify_eq.
      * intros v k [Hv| ->%list_elem_of_singleton]%elem_of_app Hf Hp; [by eapply Hall|].
        assert (k = s0) as -> by congruence. eauto.
  - split.
    + intros k y Hy. destruct (decide (k = s0)) as [->|Hne].
      * rewrite lookup_insert_eq in Hy. injection Hy as <-. simpl.
        split_and!; [done|done|exists tp; split_and!; [in_app|done..]|].
        intros v [Hv| ->%list_elem_of_singleton]%elem_of_app Hf; [|lia].
        destruct (Hall v s0 Hv Hf Hpres) as [z Hz]. congruence.
      * rewrite lookup_insert_ne in Hy by done.
        destruct (Hentries k y Hy) as (Hty & Hp & (v & Hv & Hf & Hq) & Hmax).
        split_and!; [done|done|exists v; split_and!; [in_app|done..]|].
        intros v' [Hv'| ->%list_elem_of_singleton]%elem_of_app Hf'; [by apply Hmax|].
        congruence.
    + intros v k Hv Hf Hp. destruct (decide (k = s0)) as [->|Hne].
      * rewrite lookup_insert_eq. eauto.
      * rewrite lookup_insert_ne by done.
        apply elem_of_app in Hv as [Hv| ->%list_elem_of_singleton]; [by eapply Hall|].
        congruence.
Qed.

Lemma fallbackInv_foldl (tps rest : TypeParams) (m : gmap string TypeParam)
    (seen : TypeParams) :
  fallbackInv tps m seen → fallbackInv tps (foldl (fallbackStep tps) m rest) (seen ++ rest).
Proof.
  revert m seen. induction rest as [|tp rest IH]; intros m seen Hinv; simpl.
  - by rewrite (right_id_L [] (++)).
  - rewrite (cons_middle tp seen rest), (assoc_L (++)). by apply IH, fallbackInv_step.
Qed.

Lemma fallbacks_inv (tps : TypeParams) : fallbackInv tps (fallbacks tps) tps.
Proof. apply (fallbackInv_foldl tps tps ∅ []), fallbackInv_empty. Qed.

(** A map whose entries are filed under their own tag holds one entry with
    a given tag at most; ranging over it meets that entry once. *)
Lemma range_values_filter (m : gmap string TypeParam) (lang : string) (e : TypeParam) :
  (∀ k x, m !! k = Some x → Typ x = k) →
  m !! lang = Some e →
  filter (λ x, Typ x = lang) (range_map _ m).*2 = [e].
Proof.
  intros Hkeys He. apply Permutation_singleton_r.
  rewrite (range_map_perm _ m).
  rewrite <- (insert_delete_id m lang e He).
  rewrite map_to_list_insert by apply lookup_delete_eq.
  rewrite fmap_cons, filter_cons_True by (simpl; eauto).
  rewrite filter_none; [done|].
  intros x [[k y] [-> Hky]]%list_elem_of_fmap. simpl.
  apply elem_of_map_to_list in Hky. apply lookup_delete_Some in Hky as [Hne Hky].
  by rewrite (Hkeys k y Hky).
Qed.

(** C7: when a header parses, every parsed tag lang-REGION whose bare lang
    is not in the parsed list gives rise to exactly one synthesized entry
    for lang; its quality is the greatest quality of the region variants of
    lang, and it is merged into the list before the final sort. *)
Theorem C7_family_fallback (s : string) (tps res : TypeParams) (tp : TypeParam)
    (lang region : string) :
  Parse s = Ok tps →
  ParseLang s = Ok res →
  tp ∈ tps →
  SplitN2 "-" (Typ tp) = [lang; region] →
  (∀ x, x ∈ tps → Typ x ≠ lang) →
  ∃ (e : TypeParam) (synth : TypeParams),
    res = sortIfNeeded (tps ++ synth)
    ∧ res ≡ₚ tps ++ synth
    ∧ Typ e = lang
    ∧ filter (λ x, Typ x = lang) synth = [e]
    ∧ filter (λ x, Typ x = lang) res = [e]
    ∧ (∃ v region', v ∈ tps ∧ SplitN2 "-" (Typ v) = [lang; region'] ∧ Q v = Q e)
    ∧ (∀ v region', v ∈ tps → SplitN2 "-" (Typ v) = [lang; region'] → Q v ≤ Q e).
Proof.
  intros Hparse Hlang Htp Hsplit Habsent.
  unfold ParseLang in Hlang. rewrite Hparse in Hlang. simpl in Hlang.
  injection Hlang as <-.
  destruct (fallbacks_inv tps) as [Hentries Hall].
  assert (Hfam : familyOf tp = Some lang) by (unfold familyOf; by rewrite Hsplit).
  destruct (Hall tp lang Htp Hfam (IsPresent_absent _ _ Habsent)) as [e He].
  destruct (Hentries lang e He) as (Hte & _ & (v & Hv & Hfv & Hqv) & Hmax).
  assert (Hsynth : filter (λ x, Typ x = lang) (range_map _ (fallbacks tps)).*2 = [e]).
  { apply range_values_filter; [|done]. intros k x Hk. by destruct (Hentries k x Hk). }
  exists e, (range_map _ (fallbacks tps)).*2.
  split_and!; [done|apply sortIfNeeded_perm|done|done| | |].
  - apply Permutation_singleton_r. rewrite sortIfNeeded_perm, filter_app, Hsynth.
    rewrite filter_none; [done|]. intros x Hx. by apply Habsent.
  - unfold familyOf in Hfv.
    destruct (SplitN2 "-" (Typ v)) as [|a [|b [|c l]]] eqn:Hs; simplify_eq.
    + by exists v, b.
    + unfold SplitN2 in Hs. by repeat case_match.
  - intros v' region' Hv' Hs'. apply Hmax; [done|]. unfold familyOf. by rewrite Hs'.
Qed.

End FamilyFallback.

(** ** Lookup (C8, C10) *)

Section LookupFacts.
Context {env : GoEnv} {trie : Trie}.

Lemma lastByte_None (s : string) : lastByte s = None → s = "".
Proof.
  induction s as [|c s IH]; [done|]. simpl. destruct s; [done|]. intros Hs.
  by specialize (IH Hs).
Qed.

(** C10: [Lookup] is not total.  On the empty path it faults with an index
    out of range before any tree is consulted, whatever the method and the
    router; on every non-empty path it returns. *)
Theorem C10_Lookup_empty_path (r : Router) (method : string) :
  Lookup r method "" = Panic "index out of range"
  ∧ ∀ path, path ≠ "" → ∃ res, Lookup r method path = Ok res.
Proof.
  split; [done|]. intros path Hpath. unfold Lookup.
  destruct (lastByte path) as [c|] eqn:Hlast; [|by apply lastByte_None in Hlast].
  destruct (trees r !! method) as [root|]; [|by eexists].
  destruct (getValue root _ true) as [[[[h|] ps] i18n] tsr]; by eexists.
Qed.

(** With a default language, a path that ends in a slash and does not start
    with a supported language is handed to the tree with one more slash. *)
Lemma lookupPath_appends_slash (r : Router) (path : string) :
  DefaultLang r ≠ "" →
  match splitPath path with
  | candidate :: _ => candidate ∉ SupportedLangs r
  | [] => True
  end →
  lookupPath r path true = path +:+ "/".
Proof.
  intros Hdef%String.eqb_neq Hcand. unfold lookupPath. rewrite Hdef. simpl.
  destruct (splitPath path) as [|candidate [|next rest]]; [done..|].
  by rewrite bool_decide_eq_false_2.
Qed.

End LookupFacts.

(** ** The order of the negotiator (C6) *)

Section LessFacts.
Import Negotiation.

(** A wildcard is less than anything, whatever the qualities. *)
Lemma less_wildcard (l r : TypeParam) :
  Typ l = "*" ∨ Typ l = "*/*" → less l r = true.
Proof. unfold less. by intros [-> | ->]. Qed.

(** A tag that is not a wildcard is compared by quality with anything of
    another quality, a wildcard included. *)
Lemma less_quality (l r : TypeParam) :
  Typ l ≠ "*" → Typ l ≠ "*/*" → Q l ≠ Q r → less l r = (Q l <? Q r).
Proof.
  intros H1%String.eqb_neq H2%String.eqb_neq Hq%Z.eqb_neq. unfold less.
  by rewrite H1, H2, Hq.
Qed.

End LessFacts.

(** ** Language redirect and handler (C1) *)

Section LangRedirect.
Context {env : GoEnv} {trie : Trie}.

(** After [selectLang] has written the redirect, [ServeHTTP] goes on to run
    the handle on the same writer, and commits what the handle left. *)
Lemma ServeHTTP_runs_handler_after_redirect (r : Router) (rw : Transport) (req : Request)
    (root : node) (handle : Handle) (tsr : bool) :
  trees r !! Method req = Some root →
  getValue root (Path (Url req)) true = (Some handle, None, true, tsr) →
  DefaultLang r ≠ "" →
  redirectsLang r req = true →
  ∃ lang,
    let redirected := redirLang NewResponseWriter
                                (WithValue req "UASelectedLang" (VString lang)) lang in
    ServeHTTP r HandlerDone rw req
    = Copy (run (handle (WithValue redirected.2 "Params" VNil)) redirected.1) rw.
Proof.
  intros Htree Hget Hdef%String.eqb_neq Hred. unfold ServeHTTP.
  rewrite Htree, Hget, Hdef. simpl.
  destruct (selectLang_redirects r NewResponseWriter req Hred) as [lang ->].
  by exists lang.
Qed.

End LangRedirect.

(** ** The cancellation protocol (C2, C3) *)

Section Cancellation.
Context {env : GoEnv}.

(** While the detached handler does not move, the dispatcher's steps run
    uninterrupted. *)
Lemma interleave_quiet (sched : list bool) (hops : list wop) (ds : list dstep)
    (w : ResponseWriter) (rw : Transport) :
  hops = [] ∨ Forall (λ b, b = false) sched →
  interleave sched hops ds w rw = finish ds w rw.
Proof.
  revert ds w rw. induction sched as [|b sched IH]; intros ds w rw Hquiet; [done|].
  destruct ds as [|d ds]; [done|]. simpl.
  assert (Htail : hops = [] ∨ Forall (λ b, b = false) sched).
  { destruct Hquiet as [|Hf]; [by left|right; by inversion Hf]. }
  destruct Hquiet as [->|Hf].
  - destruct b, (dstep_run d w rw); by apply IH.
  - inversion Hf as [|?? -> _]. destruct (dstep_run d w rw). by apply IH.
Qed.

(** If the abandoned handler stays quiet until the commit, the transport
    receives the error reply alone: the writer is reset, so nothing the
    handler wrote before the signal is left. *)
Lemma cancel_quiet (err : ctxErr) (sched : list bool) (hops : list wop)
    (w : ResponseWriter) (rw : Transport) :
  hops = [] ∨ Forall (λ b, b = false) sched →
  interleave sched hops (cancelSteps err) w rw
  = Copy (run [OpSet "Content-Type" "text/plain; charset=utf-8";
               OpSet "X-Content-Type-Options" "nosniff";
               OpWriteHeader (cancelError err).2;
               OpWrite ((cancelError err).1 +:+ String (ascii_of_nat 10) "")]
              NewResponseWriter) rw.
Proof. intros Hquiet. rewrite interleave_quiet by done. by destruct err. Qed.

Lemma cancel_quiet_status (err : ctxErr) (sched : list bool) (hops : list wop)
    (w : ResponseWriter) (rw : Transport) :
  hops = [] ∨ Forall (λ b, b = false) sched →
  t_status rw = 0 →
  t_status (interleave sched hops (cancelSteps err) w rw)
  = match err with DeadlineExceeded => 408 | _ => 500 end.
Proof.
  intros Hquiet Hrw. rewrite cancel_quiet by done. rewrite Copy_status, Hrw.
  by destruct err.
Qed.

End Cancellation.

(** ** Parameters of a match (C9) *)

Section BlogParams.
Context {env : GoEnv}.


End BlogParams.

(** ** The model at work: concrete runs *)

(** The concrete environment satisfies the laws. *)
Lemma testbed_laws : @GoEnvLaws Testbed.env.
Proof.
  split.
  - intros A lt l. apply insertionSort_perm.
  - done.
  - done.
Qed.

Section Runs.
Import Negotiation.

#[local] Existing Instance Testbed.env.
#[local] Existing Instance Testbed.trie.

(** C1, where the code departs from it: GET /lang on an i18n route with
    default language en.  [selectLang] writes the 301 redirect to /en/lang,
    and the handler is run all the same: the committed response has the
    handler's status and the handler's body after the redirect's. *)
Theorem C1_handler_runs_after_language_redirect :
  let r := Testbed.single "GET" "/lang" true Testbed.hello {["en"; "pt"]} "en" in
  let req := Testbed.request "GET" "/lang" ∅ in
  let t := ServeHTTP r HandlerDone Testbed.transport req in
  redirectsLang r req = true
  ∧ t_header t !! "Location" = Some ["/en/lang"]
  ∧ t_status t = 200
  ∧ t_body t = Testbed.body "/en/lang" 301 +:+ "hello".
Proof. by vm_compute. Qed.

(** C2, where the code departs from it: the deadline (or a cancellation)
    fires before the handler has done anything; the dispatcher resets the
    writer and writes the error reply; the detached handler then sets its
    status, before the deferred commit.  The committed status is the
    handler's 200, neither 408 nor 500. *)
Theorem C2_late_status_replaces_error :
  let r := Testbed.single "GET" "/deadline" false Testbed.hello ∅ "" in
  let req := Testbed.request "GET" "/deadline" ∅ in
  let sched := [false; false; false; false; false; true] in
  t_status (ServeHTTP r (CtxDone DeadlineExceeded 0 sched) Testbed.transport req) = 200
  ∧ t_status (ServeHTTP r (CtxDone Canceled 0 sched) Testbed.transport req) = 200.
Proof. by vm_compute. Qed.

(** C3, where the code departs from it: the handler has written the first
    half of its body when the deadline fires; the dispatcher resets the
    writer, the detached handler writes the second half to the new buffer,
    and the commit sends it, ahead of the error text. *)
Theorem C3_output_after_reset_is_committed :
  let r := Testbed.single "GET" "/deadline" false Testbed.halves ∅ "" in
  let req := Testbed.request "GET" "/deadline" ∅ in
  let t := ServeHTTP r (CtxDone DeadlineExceeded 1 [false; true]) Testbed.transport req in
  t_status t = 408
  ∧ t_body t = "second half" +:+ "Request Timeout" +:+ Testbed.newline.
Proof. by vm_compute. Qed.

(** C6, where the code departs from it: [less] puts a tag below a wildcard
    of higher quality, so the list already counts as sorted with the
    wildcard first, and that is the ranked order returned. *)
Theorem C6_wildcard_above_lower_quality :
  let star := {| Typ := "*"; Q := 1000 |} in
  let en := {| Typ := "en"; Q := 500 |} in
  less en star = true
  ∧ Less en star = false
  ∧ (∀ env : GoEnv, @sortIfNeeded env [star; en] = [star; en])
  ∧ Parse "*, en;q=0.5" = Ok [star; en]
  ∧ ParseLang "*, en;q=0.5" = Ok [star; en].
Proof. by vm_compute. Qed.

(** C8, where the code departs from it: with default language en, the path
    /foo/ has no language segment to strip, yet [Lookup] appends a slash and
    asks the tree for /foo//, so the route /foo/ is not found; without a
    default language it is. *)
Theorem C8_Lookup_doubles_trailing_slash :
  let r := Testbed.single "GET" "/foo/" false Testbed.hello {["en"; "pt"]} "en" in
  let r0 := Testbed.single "GET" "/foo/" false Testbed.hello {["en"; "pt"]} "" in
  lookupPath r "/foo/" true = "/foo//"
  ∧ Lookup r "GET" "/foo/" = Ok (None, None, true)
  ∧ Lookup r0 "GET" "/foo/" = Ok (Some Testbed.hello, None, false)
  ∧ Lookup r "GET" "/en/foo/" = Ok (Some Testbed.hello, None, false).
Proof. by vm_compute. Qed.

End Runs.

(** ** Witnesses *)

Section Witnesses.

#[local] Existing Instance Testbed.env.
#[local] Existing Instance Testbed.trie.

Lemma C4_allow_header_witness :
  let r := Testbed.router {["POST" := Testbed.route "/path" false Testbed.hello;
                            "DELETE" := Testbed.route "/path" false Testbed.hello;
                            "OPTIONS" := Testbed.route "/path" false Testbed.hello]} ∅ "" in
  let req := Testbed.request "GET" "/path" ∅ in
  let t := ServeHTTP r HandlerDone Testbed.transport req in
  (Path (Url req) ≠ "*" ∧ reachesFallback r req = true
   ∧ HandleMethodNotAllowed r = true)
  ∧ allowed r (Path (Url req)) (Method req) = "DELETE, OPTIONS, POST"
  ∧ t_status t = 405
  ∧ t_header t !! "Allow" = Some ["DELETE, OPTIONS, POST"].
Proof.
  intros r req t.
  assert (H1 : Path (Url req) ≠ "*") by discriminate.
  assert (H2 : reachesFallback r req = true) by (vm_compute; reflexivity).
  assert (H3 : HandleMethodNotAllowed r = true) by reflexivity.
  split; [repeat split; assumption|].
  destruct (C4_allow_header (laws := testbed_laws) r HandlerDone
              Testbed.transport req H1 H2 (or_intror H3)) as (Hallow & Hserve & _).
  rewrite Hallow. subst t. rewrite Hserve. repeat split; vm_compute; reflexivity.
Defined.


Lemma C7_family_fallback_witness :
  let s := "da, en-gb;q=0.8, en-us;q=0.9" in
  let tps := [{| Typ := "da"; Q := 1000 |}; {| Typ := "en-us"; Q := 900 |};
              {| Typ := "en-gb"; Q := 800 |}] in
  let res := [{| Typ := "da"; Q := 1000 |}; {| Typ := "en-us"; Q := 900 |};
              {| Typ := "en"; Q := 900 |}; {| Typ := "en-gb"; Q := 800 |}] in
  let tp := {| Typ := "en-gb"; Q := 800 |} in
  (Negotiation.Parse s = Ok tps
   ∧ Negotiation.ParseLang s = Ok res
   ∧ tp ∈ tps
   ∧ SplitN2 "-" (Typ tp) = ["en"; "gb"]
   ∧ (∀ x, x ∈ tps → Typ x ≠ "en"))
  ∧ ∃ e, filter (λ x, Typ x = "en") res = [e] ∧ Typ e = "en"
         ∧ ∀ v region, v ∈ tps → SplitN2 "-" (Typ v) = ["en"; region] → Q v ≤ Q e.
Proof.
  intros s tps res tp.
  assert (H1 : Negotiation.Parse s = Ok tps) by (vm_compute; reflexivity).
  assert (H2 : Negotiation.ParseLang s = Ok res)
    by (vm_compute; reflexivity).
  assert (H3 : tp ∈ tps) by (do 2 right; left).
  assert (H4 : SplitN2 "-" (Typ tp) = ["en"; "gb"]) by reflexivity.
  assert (H5 : ∀ x, x ∈ tps → Typ x ≠ "en").
  { intros x Hx. apply list_elem_of_In in Hx. simpl in Hx.
    destruct Hx as [<-|[<-|[<-|[]]]]; discriminate. }
  split; [repeat split; assumption|].
  destruct (C7_family_fallback (laws := testbed_laws)
              s tps res tp "en" "gb" H1 H2 H3 H4 H5)
    as (e & synth & _ & _ & Hte & _ & Hone & _ & Hmax).
  exists e. repeat split; assumption.
Defined.


Lemma C10_Lookup_empty_path_witness :
  "/user" ≠ ""
  ∧ ∃ res, Lookup (Testbed.single "GET" "/user" false Testbed.hello ∅ "") "GET" "/user"
           = Ok res.
Proof.
  assert (Hne : "/user" ≠ "") by discriminate.
  split; [exact Hne|].
  exact (proj2 (C10_Lookup_empty_path _ "GET") "/user" Hne).
Defined.

End Witnesses.

(** * Further properties of the code *)

(** ** Strings *)

Lemma append_cons (c : ascii) (s t : string) : String c s +:+ t = String c (s +:+ t).
Proof. done. Qed.


Lemma append_assoc (s t u : string) : s +:+ (t +:+ u) = (s +:+ t) +:+ u.
Proof. induction s as [|c s IH]; [done|]. by rewrite !append_cons, IH. Qed.


(** ** Reading a parameter by name *)

Section ParamsFacts.

Lemma ByName_skip (pre post : Params) (name : string) :
  Forall (λ p, Key p ≠ name) pre → ByName (pre ++ post) name = ByName post name.
Proof.
  induction 1 as [|p pre Hp _ IH]; [done|]. simpl.
  apply String.eqb_neq in Hp. by rewrite Hp.
Qed.

(** X1: [ByName] returns the value of the first parameter whose key is the
    name, whatever follows it (a later parameter of the same key is never
    read), and the empty string when no parameter has that key. *)
Theorem ByName_first_match (ps : Params) (name : string) :
  (∀ pre p post, ps = pre ++ p :: post → Key p = name →
     Forall (λ p, Key p ≠ name) pre → ByName ps name = Value p)
  ∧ (Forall (λ p, Key p ≠ name) ps → ByName ps name = "").
Proof.
  split.
  - intros pre p post -> Hkey Hpre. rewrite ByName_skip by done. simpl.
    apply String.eqb_eq in Hkey. by rewrite Hkey.
  - intros Hall. rewrite <- (app_nil_r ps). by rewrite ByName_skip.
Qed.

End ParamsFacts.

(** ** What the writer holds, and what a commit delivers *)

Section Writer.
Context {env : GoEnv}.




End Writer.

(** ** Committing the header *)

Section CopyHeader.
Context {env : GoEnv} {laws : GoEnvLaws}.

(** Adding the values of one name to a header map. *)
Lemma lookup_foldl_Add (k : string) (vs : list string) (h : HeaderMap) (k' : string) :
  foldl (λ h item, Hdr.Add k item h) h vs !! k'
  = if decide (k = k')
    then match vs with
         | [] => h !! k'
         | _ :: _ => Some (default [] (h !! k') ++ vs)
         end
    else h !! k'.
Proof.
  revert h. induction vs as [|v vs IH]; intros h; simpl.
  - by case_decide.
  - rewrite IH. unfold Hdr.Add. case_decide as Hk.
    + subst k'. rewrite lookup_insert_eq. simpl.
      destruct vs; [done|]. by rewrite <- app_assoc.
    + by rewrite lookup_insert_ne.
Qed.

(** Adding the values of several names, each name once. *)
Lemma lookup_foldl_headers (l : list (string * list string)) (h : HeaderMap) (k : string) :
  NoDup l.*1 →
  foldl (λ h kv, foldl (λ h item, Hdr.Add kv.1 item h) h kv.2) h l !! k
  = match (list_to_map l : HeaderMap) !! k with
    | Some (v :: vs) => Some (default [] (h !! k) ++ v :: vs)
    | _ => h !! k
    end.
Proof.
  revert h. induction l as [|[k0 vs0] l IH]; intros h Hnd; [done|].
  apply NoDup_cons in Hnd as [Hk0 Hnd]. simpl.
  rewrite IH by done. rewrite lookup_foldl_Add.
  case_decide as Hk.
  - subst k0. rewrite lookup_insert_eq.
    rewrite (not_elem_of_list_to_map_1 _ _ Hk0). by destruct vs0.
  - by rewrite lookup_insert_ne.
Qed.

Lemma Copy_header_lookup (w : ResponseWriter) (rw : Transport) (k : string) :
  t_header (Copy w rw) !! k
  = match header w !! k with
    | Some (v :: vs) => Some (default [] (t_header rw !! k) ++ v :: vs)
    | _ => t_header rw !! k
    end.
Proof.
  assert (Hh : t_header (Copy w rw)
               = foldl (λ h kv, foldl (λ h item, Hdr.Add kv.1 item h) h kv.2)
                       (t_header rw) (range_map _ (header w))).
  { unfold Copy, t_Write, t_WriteHeader. simpl. by repeat case_match. }
  rewrite Hh, lookup_foldl_headers.
  - rewrite <- (list_to_map_flip (header w) (range_map _ (header w))); [done|].
    symmetry. apply range_map_perm.
  - rewrite (range_map_perm _ (header w)). apply NoDup_fst_map_to_list.
Qed.

(** X2: [Copy] adds the values the writer holds for a name after the values
    the destination already has for it, in their order, whatever the order
    in which the header map is ranged over; a name the writer does not hold,
    or holds without values, is left as it is on the destination. *)
Theorem Copy_merges_header (w : ResponseWriter) (rw : Transport) (k : string) :
  t_header (Copy w rw) !! k
  = match header w !! k with
    | Some (v :: vs) => Some (default [] (t_header rw !! k) ++ v :: vs)
    | _ => t_header rw !! k
    end.
Proof. apply Copy_header_lookup. Qed.


End CopyHeader.

(** ** What the client receives from a handler *)

Section HandlerResponse.
Context {env : GoEnv} {trie : Trie}.


End HandlerResponse.

(** ** Cancellation under every schedule *)

Section Schedules.
Context {env : GoEnv} {trie : Trie}.

(** As long as the reset is still to come, what the writer holds does not
    matter. *)
Lemma interleave_before_reset (sched : list bool) (hops : list wop) (ds : list dstep)
    (w w' : ResponseWriter) (rw : Transport) :
  interleave sched hops (DReset :: ds) w rw = interleave sched hops (DReset :: ds) w' rw.
Proof.
  revert hops w w'. induction sched as [|b sched IH]; intros hops w w'; [done|].
  simpl. destruct b, hops as [|o hops]; first [done | apply IH].
Qed.

(** X5: Whatever the handler wrote before the dispatcher took the
    cancellation branch is never committed, under any schedule: the
    response is the one of a run in which the handler's first [k] calls were
    not made at all. *)
Theorem output_before_cancellation_is_discarded (r : Router) (err : ctxErr) (k : nat)
    (sched : list bool) (rw : Transport) (req : Request) (root : node)
    (handle : Handle) (i18n tsr : bool) :
  trees r !! Method req = Some root →
  getValue root (Path (Url req)) true = (Some handle, None, i18n, tsr) →
  let req' :=
    if negb (String.eqb (DefaultLang r) "") && i18n
    then (selectLang r NewResponseWriter req).1.2 else req in
  ServeHTTP r (CtxDone err k sched) rw req
  = interleave sched (drop k (handle (WithValue req' "Params" VNil))) (cancelSteps err)
               NewResponseWriter rw.
Proof.
  intros Htree Hget req'. unfold ServeHTTP. rewrite Htree, Hget. subst req'.
  destruct (negb (DefaultLang r =? "")%string && i18n).
  - destruct (selectLang r NewResponseWriter req) as [[w1 req1] path1]. simpl.
    destruct err; apply interleave_before_reset.
  - destruct err; apply interleave_before_reset.
Qed.

(** Steps of the dispatcher alone: the status they commit depends on the
    code the writer holds and on the status of the transport only. *)
Lemma finish_status (ds : list dstep) (w w' : ResponseWriter) (rw rw' : Transport) :
  code w = code w' → t_status rw = t_status rw' →
  t_status (finish ds w rw) = t_status (finish ds w' rw').
Proof.
  revert w w' rw rw'. induction ds as [|d ds IH]; intros w w' rw rw' Hc Hs; [done|].
  simpl. destruct d as [|o|]; simpl.
  - by apply IH.
  - apply IH; [|done]. destruct o; simpl; done.
  - apply IH; [done|]. by rewrite !Copy_status, Hc, Hs.
Qed.

(** A handler that does not call [WriteHeader] cannot change the committed
    status, however its calls are scheduled. *)
Lemma interleave_status (sched : list bool) (hops : list wop) (ds : list dstep)
    (w w' : ResponseWriter) (rw rw' : Transport) :
  Forall (λ o, isWriteHeader o = false) hops →
  code w = code w' → t_status rw = t_status rw' →
  t_status (interleave sched hops ds w rw) = t_status (finish ds w' rw').
Proof.
  revert hops ds w w' rw rw'.
  induction sched as [|b sched IH]; intros hops ds w w' rw rw' Hq Hc Hs.
  { by apply finish_status. }
  destruct ds as [|d ds]; [done|].
  assert (Hstep : t_status (let '(w1, rw1) := dstep_run d w rw in
                            interleave sched hops ds w1 rw1)
                  = t_status (finish (d :: ds) w' rw')).
  { simpl. destruct d as [|o|]; simpl.
    - by apply IH.
    - apply IH; [done| |done]. destruct o; simpl; done.
    - apply IH; [done|done|]. by rewrite !Copy_status, Hc, Hs. }
  simpl. destruct b; [|exact Hstep]. destruct hops as [|o hops]; [exact Hstep|].
  inversion Hq as [|?? Ho Hq']; subst.
  apply (IH hops (d :: ds) (apply o w) w' rw rw'); [done| |done].
  destruct o; simpl in *; done.
Qed.

(** X6: After a cancellation the client gets the error status, 408 for an
    expired deadline and 500 otherwise, under every schedule, provided the
    abandoned handler makes no [WriteHeader] call from then on; its other
    calls cannot change the status. *)
Theorem cancellation_status_under_every_schedule (err : ctxErr) (sched : list bool)
    (hops : list wop) (w : ResponseWriter) (rw : Transport) :
  Forall (λ o, isWriteHeader o = false) hops →
  t_status rw = 0 →
  t_status (interleave sched hops (cancelSteps err) w rw)
  = match err with DeadlineExceeded => 408 | _ => 500 end.
Proof.
  intros Hq Hrw. rewrite (interleave_status sched hops _ w w rw rw) by done.
  destruct err; cbn [cancelSteps cancelError finish dstep_run];
    by rewrite Copy_status, Hrw.
Qed.

End Schedules.

(** ** Registering routes *)

Section RegistrationFacts.
Context {env : GoEnv} {laws : GoEnvLaws} {trie : Trie} {build : TrieBuild}.

(** The path test of [Handle] is the prefix test. *)
Lemma HasPrefix_slash (path : string) :
  HasPrefix path "/"
  = negb ((String.length path <? 1)%nat
          || negb (bool_decide (String.get 0 path = Some "/"%char))).
Proof.
  destruct path as [|c path]; [done|]. unfold HasPrefix.
  change (String.prefix "/" (String c path))
    with (if ascii_dec "/" c then String.prefix "" path else false).
  cbn [String.length Nat.ltb Nat.leb orb String.get].
  destruct (ascii_dec "/" c) as [<-|Hne].
  - rewrite bool_decide_true by done. by destruct path.
  - rewrite bool_decide_false; [done|]. by intros [= ->].
Qed.

(** What a successful [Handle] did. *)
Lemma Router_Handle_Ok (r r' : Router) (method path : string) (i18n : bool)
    (handle : option Handle) :
  Router_Handle r method path i18n handle = Ok r' →
  ∃ h root',
    handle = Some h ∧ method ≠ "" ∧ HasPrefix path "/" = true
    ∧ addRoute (default newNode (trees r !! method)) path i18n h = Ok root'
    ∧ r' = withTrees r (<[method := root']> (trees r))
             (match trees r !! method with
              | Some _ => globalAllowed r
              | None => allowed (withTrees r (<[method := newNode]> (trees r))
                                           (globalAllowed r)) "*" ""
              end).
Proof.
  unfold Router_Handle. destruct (method =? "")%string eqn:Hm; [done|].
  apply String.eqb_neq in Hm.
  rewrite HasPrefix_slash.
  destruct ((String.length path <? 1)%nat || _); [done|].
  destruct handle as [h|]; [|done].
  destruct (trees r !! method) as [root|] eqn:Htree; simpl.
  - destruct (addRoute root _ i18n h) as [root'| |] eqn:Hadd; simpl; [|done..].
    intros [= <-]. by exists h, root'.
  - destruct (addRoute newNode _ i18n h) as [root'| |] eqn:Hadd; simpl; [|done..].
    intros [= <-]. exists h, root'. split_and!; try done.
    unfold withTrees. simpl. by rewrite insert_insert_eq.
Qed.

(** X7: [Handle] registers the route exactly when the method is not empty, the
    path begins with a slash, the handle is not nil and the tree accepts
    the route; in every other case it panics or fails and there is no
    router to go on with. *)
Theorem Handle_succeeds_iff (r : Router) (method path : string) (i18n : bool)
    (handle : option Handle) :
  (∃ r', Router_Handle r method path i18n handle = Ok r')
  ↔ method ≠ "" ∧ HasPrefix path "/" = true
    ∧ ∃ h root', handle = Some h
        ∧ addRoute (default newNode (trees r !! method)) path i18n h = Ok root'.
Proof.
  split.
  - intros [r' Hok]. apply Router_Handle_Ok in Hok as (h & root' & ? & ? & ? & ? & _).
    split_and!; try done. by exists h, root'.
  - intros (Hm%String.eqb_neq & Hp & h & root' & -> & Hadd).
    unfold Router_Handle. rewrite Hm. rewrite HasPrefix_slash in Hp.
    apply negb_true_iff in Hp as ->.
    destruct (trees r !! method) as [root|]; simpl in *; rewrite Hadd; simpl; by eexists.
Qed.

(** The methods [allowed] collects for the server-wide value. *)
Lemma methods_perm (ts : gmap string node) :
  filter (λ m, m ≠ "OPTIONS") (range_map node ts).*1 ≡ₚ elements (dom ts ∖ {["OPTIONS"]}).
Proof.
  rewrite (range_map_perm _ ts). apply NoDup_Permutation.
  - apply NoDup_filter, NoDup_fst_map_to_list.
  - apply NoDup_elements.
  - intros m. rewrite list_elem_of_filter, elem_of_elements, elem_of_difference,
      elem_of_dom, not_elem_of_singleton, list_elem_of_fmap.
    split.
    + intros [Hm ([k v] & -> & Hkv)]. apply elem_of_map_to_list in Hkv. eauto.
    + intros [[v Hv] Hm]. split; [done|]. exists (m, v). split; [done|].
      by apply elem_of_map_to_list.
Qed.

Lemma allowed_server_wide (r : Router) :
  allowed r "*" "" = serverAllowSpec (dom (trees r)).
Proof.
  unfold allowed. simpl.
  rewrite (allowedJoin_perm _ _ (methods_perm (trees r))), allowedJoin_spec.
  unfold serverAllowSpec. by destruct (elements _).
Qed.

(** X8: The server-wide Allow value is kept up to date by registration: on a
    new router, and after every successful [Handle], [globalAllowed] is the
    ascending list of the registered methods other than OPTIONS, followed by
    OPTIONS in its place, joined by comma-space, and empty when no such
    method is registered. *)
Theorem registration_keeps_globalAllowed :
  globalAllowed New = serverAllowSpec (dom (trees New))
  ∧ ∀ (r r' : Router) (method path : string) (i18n : bool) (handle : option Handle),
      globalAllowed r = serverAllowSpec (dom (trees r)) →
      Router_Handle r method path i18n handle = Ok r' →
      globalAllowed r' = serverAllowSpec (dom (trees r')).
Proof.
  split; [done|]. intros r r' method path i18n handle Hinv Hok.
  apply Router_Handle_Ok in Hok as (h & root' & _ & _ & _ & _ & ->). simpl.
  rewrite dom_insert_L.
  destruct (trees r !! method) as [root|] eqn:Htree.
  - apply elem_of_dom_2 in Htree.
    rewrite (subseteq_union_1_L {[method]} (dom (trees r))); [done|].
    by apply singleton_subseteq_l.
  - rewrite allowed_server_wide. simpl. by rewrite dom_insert_L.
Qed.

(** X9: Registering a route for one method does not change how a request of
    another method that has a handle is served: the same handle runs on the
    same request, under the same language rules. *)
Theorem registration_leaves_other_methods (r r' : Router) (method path : string)
    (i18n : bool) (handle : option Handle) (rc : race) (rw : Transport) (req : Request)
    (root : node) :
  Router_Handle r method path i18n handle = Ok r' →
  Method req ≠ method →
  trees r !! Method req = Some root →
  is_Some (getValue root (Path (Url req)) true).1.1.1 →
  ServeHTTP r' rc rw req = ServeHTTP r rc rw req.
Proof.
  intros Hok Hm Htree Hfound.
  apply Router_Handle_Ok in Hok as (h & root' & _ & _ & _ & _ & ->).
  unfold ServeHTTP. simpl. rewrite lookup_insert_ne by done. rewrite Htree.
  destruct (getValue root (Path (Url req)) true) as [[[[hd|] ps] lang] tsr]; [done|].
  by destruct Hfound.
Qed.

End RegistrationFacts.

(** ** The server-wide OPTIONS reply *)

Section ServerWide.
Context {env : GoEnv} {laws : GoEnvLaws} {trie : Trie}.

(** X10: An OPTIONS request for [*] that no route answers is answered with the
    server-wide Allow value: on a router whose [globalAllowed] is up to
    date, the Allow header lists every registered method other than
    OPTIONS, sorted, and OPTIONS; when no such method is registered the
    request gets the 404 outcome. *)
Theorem server_wide_OPTIONS (r : Router) (rc : race) (rw : Transport) (req : Request) :
  globalAllowed r = serverAllowSpec (dom (trees r)) →
  Method req = "OPTIONS" →
  Path (Url req) = "*" →
  HandleOPTIONS r = true →
  reachesFallback r req = true →
  ServeHTTP r rc rw req
  = match elements (dom (trees r) ∖ {["OPTIONS"]}) with
    | [] => Copy (serveNotFound r NewResponseWriter req) rw
    | ms =>
        let allow := Join (merge_sort String.le (ms ++ ["OPTIONS"])) ", " in
        let w := onHeader (Hdr.Set_ "Allow" allow) NewResponseWriter in
        Copy (match GlobalOPTIONS r with
              | Some h => run (h req) w
              | None => w
              end) rw
    end.
Proof.
  intros Hinv Hm Hp Hopt Hreach. rewrite ServeHTTP_fallback by done.
  unfold serveFallback, allowed. rewrite Hm, Hp, Hopt, Hinv. simpl.
  unfold serverAllowSpec.
  destruct (elements (dom (trees r) ∖ {["OPTIONS"]})) as [|m ms] eqn:Hms; [done|].
  assert (Hne : Join (merge_sort String.le ((m :: ms) ++ ["OPTIONS"])) ", " ≠ "").
  { apply (Join_not_empty _ "OPTIONS"); [|done].
    rewrite merge_sort_Permutation. in_app. }
  apply String.eqb_neq in Hne. by rewrite Hne.
Qed.

End ServerWide.

(** ** The best language *)

Section BestLanguage.
Context {env : GoEnv} {laws : GoEnvLaws}.
Import Negotiation.

Lemma foldl_invariant {A B : Type} (f : A → B → A) (I : list B → A → Prop)
    (l : list B) (a : A) :
  I [] a →
  (∀ seen x a, x ∈ l → I seen a → I (seen ++ [x]) (f a x)) →
  I l (foldl f a l).
Proof.
  intros Hinit Hstep. induction l as [|x l IH] using rev_ind; [done|].
  rewrite foldl_app. simpl. apply Hstep; [in_app|].
  apply IH. intros seen y b Hy. apply Hstep. apply elem_of_app. by left.
Qed.

(** The candidate [FindBest] makes of a supported tag. *)
Lemma rankType_found (tps : TypeParams) (t : string) :
  rankType tps t ≠ -1 →
  ∃ tp, tp ∈ tps ∧ comptypes (Typ tp) t = true ∧ Q tp = rankType tps t.
Proof.
  induction tps as [|tp tps IH]; [done|]. simpl.
  destruct (comptypes (Typ tp) t) eqn:Hc.
  - intros _. exists tp. split; [left|done].
  - intros (tp' & Hin & ?)%IH. exists tp'. split; [by right|done].
Qed.

(** What the loop of [FindBest] holds after the tags [seen]: its best is
    the start value as long as no tag seen had a rank, and otherwise it is a
    ranked tag seen. *)
Lemma FindBest_loop (tps : TypeParams) (l : list string) :
  let step := λ best s0,
    let s := TrimSpace s0 in
    let tp := {| Typ := s; Q := rankType tps s |} in
    if (Q tp >? -1) && less best tp then tp else best in
  let best := foldl step {| Typ := ""; Q := 0 |} l in
  best = {| Typ := ""; Q := 0 |}
  ∨ ∃ s, s ∈ l ∧ best = {| Typ := TrimSpace s; Q := rankType tps (TrimSpace s) |}
         ∧ rankType tps (TrimSpace s) > -1.
Proof.
  intros step best. subst best.
  apply (foldl_invariant step (λ seen best,
           best = {| Typ := ""; Q := 0 |}
           ∨ ∃ s, s ∈ l ∧ best = {| Typ := TrimSpace s; Q := rankType tps (TrimSpace s) |}
                  ∧ rankType tps (TrimSpace s) > -1)); [by left|].
  intros seen x best Hx Hbest. unfold step. simpl.
  destruct (rankType tps (TrimSpace x) >? -1) eqn:Hq; [|done]. simpl.
  destruct (less best _); [|done]. right. exists x. split_and!; [done..|lia].
Qed.

(** X11: [FindBest] never answers with a language the server does not support:
    its answer is empty, or it is a supported tag, trimmed, that has a rank
    in the client's list, the quality of an entry of the list that is
    compatible with it. *)
Theorem FindBest_sound (tps : TypeParams) (vs : gset string) :
  FindBest tps vs = ""
  ∨ ∃ s tp, s ∈ vs ∧ FindBest tps vs = TrimSpace s
            ∧ tp ∈ tps ∧ comptypes (Typ tp) (TrimSpace s) = true
            ∧ Q tp = rankType tps (TrimSpace s) ∧ Q tp > -1.
Proof.
  unfold FindBest. destruct (size vs =? 0)%nat; [by left|].
  pose proof (FindBest_loop tps (range_set vs)) as Hloop. cbv zeta in Hloop |- *.
  destruct Hloop as [-> | (s & Hs & -> & Hq)]; [by left|].
  right. destruct (rankType_found tps (TrimSpace s)) as (tp & Htp & Hc & Hqtp); [lia|].
  exists s, tp. split_and!; try done; [|lia].
  rewrite (range_set_perm vs) in Hs. by apply elem_of_elements in Hs.
Qed.

(** [less] on a left operand that is no wildcard. *)
Lemma less_true_le (l r : TypeParam) :
  Typ l ≠ "*" → Typ l ≠ "*/*" → less l r = true → Q l ≤ Q r.
Proof.
  intros H1%String.eqb_neq H2%String.eqb_neq. unfold less. rewrite H1, H2. simpl.
  destruct (Q l =? Q r) eqn:Heq.
  - apply Z.eqb_eq in Heq. intros _. lia.
  - intros ?%Z.ltb_lt. lia.
Qed.

Lemma less_false_ge (l r : TypeParam) :
  Typ l ≠ "*" → Typ l ≠ "*/*" → less l r = false → Q r ≤ Q l.
Proof.
  intros H1%String.eqb_neq H2%String.eqb_neq. unfold less. rewrite H1, H2. simpl.
  destruct (Q l =? Q r) eqn:Heq.
  - apply Z.eqb_eq in Heq. intros _. lia.
  - intros ?%Z.ltb_ge. lia.
Qed.

(** The start value of [FindBest] is less than every ranked tag. *)
Lemma less_start (tp : TypeParam) :
  Typ tp ≠ "" → 0 ≤ Q tp → less {| Typ := ""; Q := 0 |} tp = true.
Proof.
  intros Hne Hq. unfold less. simpl.
  destruct (Q tp) as [|q|q]; [|done|lia]. by destruct (Typ tp).
Qed.

(** The other half of the loop: with supported tags that are neither empty
    nor wildcards, the best has a quality no ranked tag seen exceeds, and it
    is a tag as soon as a ranked tag was seen. *)
Lemma FindBest_loop_best (tps : TypeParams) (l : list string) :
  (∀ s, s ∈ l → TrimSpace s ≠ "" ∧ TrimSpace s ≠ "*" ∧ TrimSpace s ≠ "*/*") →
  let step := λ best s0,
    let s := TrimSpace s0 in
    let tp := {| Typ := s; Q := rankType tps s |} in
    if (Q tp >? -1) && less best tp then tp else best in
  let best := foldl step {| Typ := ""; Q := 0 |} l in
  (∀ s, s ∈ l → rankType tps (TrimSpace s) > -1 →
     Typ best ≠ "" ∧ rankType tps (TrimSpace s) ≤ Q best)
  ∧ Typ best ≠ "*" ∧ Typ best ≠ "*/*"
  ∧ (Typ best = "" → best = {| Typ := ""; Q := 0 |}).
Proof.
  intros Htags step best. subst best.
  apply (foldl_invariant step (λ seen best,
           (∀ s, s ∈ seen → rankType tps (TrimSpace s) > -1 →
              Typ best ≠ "" ∧ rankType tps (TrimSpace s) ≤ Q best)
           ∧ Typ best ≠ "*" ∧ Typ best ≠ "*/*"
           ∧ (Typ best = "" → best = {| Typ := ""; Q := 0 |}))).
  { split_and!; try done. by intros s ?%elem_of_nil. }
  intros seen x best Hx (Hseen & Hw1 & Hw2 & Hstart). unfold step. simpl.
  destruct (Htags x Hx) as (Hne & Hx1 & Hx2).
  destruct (rankType tps (TrimSpace x) >? -1) eqn:Hq; simpl.
  - apply Z.gtb_gt in Hq.
    destruct (less best _) eqn:Hl.
    + apply less_true_le in Hl; [|done..]. simpl in Hl. simpl.
      split_and!; try done.
      intros s [Hs | ->%list_elem_of_singleton]%elem_of_app Hr; [|split; [done|lia]].
      destruct (Hseen s Hs Hr). split; [done|]. lia.
    + assert (Hbest : Typ best ≠ "").
      { intros Hb. rewrite (Hstart Hb), less_start in Hl; [done|done|simpl; lia]. }
      apply less_false_ge in Hl; [|done..]. simpl in Hl.
      split_and!; try done.
      intros s [Hs | ->%list_elem_of_singleton]%elem_of_app Hr; [by apply Hseen|done].
  - rewrite Z.gtb_ltb in Hq. apply Z.ltb_ge in Hq. split_and!; try done.
    intros s [Hs | ->%list_elem_of_singleton]%elem_of_app Hr; [by apply Hseen|lia].
Qed.

(** X12: When the supported tags are neither empty nor wildcards, [FindBest]
    finds a language as soon as one supported tag has a rank, and no
    supported tag has a greater rank than its answer. *)
Theorem FindBest_best (tps : TypeParams) (vs : gset string) (s : string) :
  (∀ s, s ∈ vs → TrimSpace s ≠ "" ∧ TrimSpace s ≠ "*" ∧ TrimSpace s ≠ "*/*") →
  s ∈ vs →
  rankType tps (TrimSpace s) > -1 →
  FindBest tps vs ≠ ""
  ∧ rankType tps (TrimSpace s) ≤ rankType tps (FindBest tps vs).
Proof.
  intros Htags Hs Hr. unfold FindBest.
  destruct (size vs =? 0)%nat eqn:Hsz.
  { apply Nat.eqb_eq, size_empty_iff in Hsz. by apply Hsz in Hs. }
  assert (Htags' : ∀ s, s ∈ range_set vs →
            TrimSpace s ≠ "" ∧ TrimSpace s ≠ "*" ∧ TrimSpace s ≠ "*/*").
  { intros s' Hs'. apply Htags. rewrite (range_set_perm vs) in Hs'.
    by apply elem_of_elements in Hs'. }
  assert (Hs' : s ∈ range_set vs).
  { rewrite (range_set_perm vs). by apply elem_of_elements. }
  pose proof (FindBest_loop_best tps (range_set vs) Htags') as [Hbest _].
  pose proof (FindBest_loop tps (range_set vs)) as Hloop.
  cbv zeta in Hbest, Hloop |- *.
  destruct (Hbest s Hs' Hr) as [Hne Hle]. split; [done|].
  destruct Hloop as [Hinit | (s1 & _ & Heq & _)].
  - by rewrite Hinit in Hne.
  - rewrite Heq in Hle |- *. done.
Qed.

End BestLanguage.

(** ** The language a handler sees *)

Section SelectedLanguage.
Context {env : GoEnv} {laws : GoEnvLaws} {trie : Trie}.
Import Negotiation.

Lemma acceptedLanguage_supported (r : Router) (req : Request) :
  acceptedLanguage r req = ""
  ∨ ∃ s, s ∈ SupportedLangs r ∧ acceptedLanguage r req = TrimSpace s.
Proof.
  unfold acceptedLanguage. destruct (Hdr.Get _ _ =? "")%string; [by left|].
  destruct (ParseLang _) as [parsed| |]; [|by left..].
  destruct (FindBest_loop parsed (range_set (SupportedLangs r))) as [Hb | (s & Hs & Hb & _)];
    unfold FindBest; (destruct (size _ =? 0)%nat; [by left|]); cbv zeta in Hb |- *;
    rewrite Hb; [by left|].
  right. exists s. split; [|done].
  rewrite (range_set_perm (SupportedLangs r)) in Hs. by apply elem_of_elements in Hs.
Qed.

(** X13: [selectLang] always records a language in the request, and never one
    that is foreign to the router: it is the default language, or a
    supported tag (trimmed, when it comes from the negotiation). *)
Theorem selected_language_is_supported_or_default (r : Router) (w : ResponseWriter)
    (req : Request) :
  ∃ lang,
    ContentLang (selectLang r w req).1.2 = Ok lang
    ∧ (lang = DefaultLang r ∨ lang ∈ SupportedLangs r
       ∨ ∃ s, s ∈ SupportedLangs r ∧ lang = TrimSpace s).
Proof.
  set (selected := if negb (acceptedLanguage r req =? "")%string
                   then acceptedLanguage r req else DefaultLang r).
  assert (Hsel : selected = DefaultLang r
                 ∨ ∃ s, s ∈ SupportedLangs r ∧ selected = TrimSpace s).
  { subst selected. destruct (acceptedLanguage_supported r req) as [-> | (s & Hs & ->)].
    - by left.
    - destruct (negb _); [right; by exists s | by left]. }
  unfold selectLang. fold selected.
  destruct (negb (URL_String (Url req) =? "*")%string).
  - destruct (splitPath (Path (Url req))) as [|candidate rest].
    + exists selected. split; [done|]. destruct Hsel; auto.
    + case_bool_decide as Hc.
      * exists candidate. split; [done|]. auto.
      * exists selected. split; [done|]. destruct Hsel; auto.
  - exists selected. split; [done|]. destruct Hsel; auto.
Qed.

(** X14: A request for an i18n route whose path begins with a supported
    language is not redirected: the handle runs on a fresh writer and sees
    that language, whatever the Accept-Language header asks for and whatever
    the default language is. *)
Theorem language_of_the_path_wins (r : Router) (rw : Transport) (req : Request)
    (root : node) (handle : Handle) (ps : option Params) (tsr : bool)
    (candidate : string) (rest : list string) :
  trees r !! Method req = Some root →
  getValue root (Path (Url req)) true = (Some handle, ps, true, tsr) →
  DefaultLang r ≠ "" →
  URL_String (Url req) ≠ "*" →
  splitPath (Path (Url req)) = candidate :: rest →
  candidate ∈ SupportedLangs r →
  ∃ req',
    ContentLang req' = Ok candidate
    ∧ Url req' = Url req
    ∧ ServeHTTP r HandlerDone rw req = Copy (run (handle req') NewResponseWriter) rw.
Proof.
  intros Htree Hget Hdef%String.eqb_neq Hurl%String.eqb_neq Hsplit Hc.
  unfold ServeHTTP. rewrite Htree, Hget, Hdef. simpl.
  unfold selectLang. rewrite Hurl, Hsplit. simpl. rewrite bool_decide_true by done.
  destruct ps as [ps|]; eexists; (split; [|split; [|reflexivity]]); done.
Qed.

End SelectedLanguage.

(** ** ParseLang and Parse *)

Section Parsing.
Context {env : GoEnv} {laws : GoEnvLaws}.
Import Negotiation.

(** X15: [ParseLang] fails exactly as [Parse] does, and invents nothing: an
    entry of its result is an entry of [Parse], or it stands for the bare
    language of an entry of [Parse] that has a country part, with the
    quality of such an entry, and the search did not find that language in
    the list. *)
Theorem ParseLang_invents_nothing (s : string) :
  match Parse s with
  | Ok tps =>
      ∃ res, ParseLang s = Ok res
        ∧ ∀ tp, tp ∈ res →
            tp ∈ tps
            ∨ (IsPresent tps (Typ tp) = false
               ∧ ∃ v, v ∈ tps ∧ familyOf v = Some (Typ tp) ∧ Q v = Q tp)
  | Err e => ParseLang s = Err e
  | Panic e => ParseLang s = Panic e
  end.
Proof.
  unfold ParseLang. destruct (Parse s) as [tps| |]; [|done..]. simpl.
  eexists. split; [done|]. intros tp Htp.
  rewrite sortIfNeeded_perm in Htp.
  apply elem_of_app in Htp as [Htp|Htp]; [by left|right].
  apply list_elem_of_fmap in Htp as ([k x] & -> & Hkx). simpl.
  rewrite (range_map_perm _ (fallbacks tps)) in Hkx. apply elem_of_map_to_list in Hkx.
  destruct (fallbacks_inv tps) as [Hentries _].
  destruct (Hentries k x Hkx) as (<- & Habs & Hv & _). done.
Qed.

End Parsing.

(** ** Splitting *)

Lemma chars_append (s t : string) :
  list_ascii_of_string (s +:+ t) = list_ascii_of_string s ++ list_ascii_of_string t.
Proof. induction s as [|c s IH]; [done|]. rewrite append_cons. simpl. by rewrite IH. Qed.

(** A string without the separator is its own single part. *)
Lemma Split_no_sep (sep : ascii) (s : string) :
  sep ∉ list_ascii_of_string s → Split sep s = [s].
Proof.
  induction s as [|c s IH]; [done|]. simpl. intros Hnot.
  apply not_elem_of_cons in Hnot as [Hc Hs].
  destruct (Ascii.eqb_spec c sep) as [->|_]; [done|]. by rewrite IH.
Qed.

(** The first separator ends the first part. *)
Lemma Split_app_sep (sep : ascii) (a b : string) :
  sep ∉ list_ascii_of_string a → Split sep (a +:+ String sep b) = a :: Split sep b.
Proof.
  induction a as [|c a IH]; intros Hnot.
  - change ("" +:+ String sep b) with (String sep b). simpl. by rewrite Ascii.eqb_refl.
  - rewrite append_cons. simpl. apply not_elem_of_cons in Hnot as [Hc Ha].
    destruct (Ascii.eqb_spec c sep) as [->|_]; [done|]. by rewrite IH.
Qed.

(** The parts are made of the bytes of the string. *)
Lemma Split_chars (sep : ascii) (s x : string) (c : ascii) :
  x ∈ Split sep s → c ∈ list_ascii_of_string x → c ∈ list_ascii_of_string s.
Proof.
  revert x. induction s as [|c0 s IH]; intros x; simpl.
  - by intros ->%list_elem_of_singleton.
  - destruct (Ascii.eqb c0 sep).
    + intros [->|Hx]%elem_of_cons Hc; [by apply elem_of_nil in Hc|].
      right. by apply (IH x).
    + destruct (Split sep s) as [|y ys] eqn:Hsplit.
      * intros ->%list_elem_of_singleton Hc. simpl in Hc.
        apply list_elem_of_singleton in Hc as ->. left.
      * intros [->|Hx]%elem_of_cons Hc.
        -- simpl in Hc. apply elem_of_cons in Hc as [->|Hc]; [left|right].
           apply (IH y); [left|done].
        -- right. apply (IH x); [by right|done].
Qed.

(** ** Parsing a header without parameters *)

Section PlainHeader.
Context {env : GoEnv} {laws : GoEnvLaws}.
Import Negotiation.

Lemma parseEntries_plain (mps : list string) :
  Forall (λ mp, ";"%char ∉ list_ascii_of_string mp) mps →
  parseEntries mps = Ok (map (λ mp, {| Typ := TrimSpace mp; Q := 1000 |}) mps).
Proof.
  induction 1 as [|mp mps Hmp _ IH]; [done|]. simpl.
  unfold parseEntry. rewrite (Split_no_sep _ _ Hmp). simpl. by rewrite IH.
Qed.

(** X16: A header in which no entry has parameters parses to its
    comma-separated tags, each trimmed and of quality 1 (1000): none is
    lost, none is added, and the parser cannot fail on it. *)
Theorem Parse_plain_header (s : string) :
  s ≠ "" →
  ";"%char ∉ list_ascii_of_string s →
  ∃ tps, Parse s = Ok tps
    ∧ tps ≡ₚ map (λ mp, {| Typ := TrimSpace mp; Q := 1000 |}) (Split "," s).
Proof.
  intros Hne Hnot. unfold Parse.
  destruct s as [|c s]; [done|]. cbn [String.length Nat.eqb].
  rewrite parseEntries_plain.
  - simpl. eexists. split; [done|]. apply sortIfNeeded_perm.
  - apply Forall_forall. intros mp Hmp Hc. apply Hnot. by apply (Split_chars _ _ _ _ Hmp).
Qed.

End PlainHeader.

(** ** The subtype of a media type *)

Section SubtypeFacts.

(** X17: [Subtype] of a media type [a/b], with or without parameters after a
    semicolon, is [b]. *)
Theorem Subtype_of_media_type (a b rest : string) :
  "/"%char ∉ list_ascii_of_string a → ";"%char ∉ list_ascii_of_string a →
  "/"%char ∉ list_ascii_of_string b → ";"%char ∉ list_ascii_of_string b →
  Subtype (a +:+ "/" +:+ b) = Ok b
  ∧ Subtype (a +:+ "/" +:+ b +:+ ";" +:+ rest) = Ok b.
Proof.
  intros Ha1 Ha2 Hb1 Hb2.
  assert (Hsemi : ";"%char ∉ list_ascii_of_string (a +:+ String "/" b)).
  { rewrite chars_append. simpl. intros [?|[?|?]%elem_of_cons]%elem_of_app; done. }
  assert (Hparts : Split "/" (a +:+ String "/" b) = [a; b]).
  { rewrite Split_app_sep by done. by rewrite Split_no_sep. }
  split.
  - unfold Subtype. change ("/" +:+ b) with (String "/" b).
    rewrite (Split_no_sep _ _ Hsemi). by rewrite Hparts.
  - unfold Subtype.
    replace (a +:+ "/" +:+ b +:+ ";" +:+ rest)
      with ((a +:+ String "/" b) +:+ String ";" rest).
    + rewrite (Split_app_sep _ _ _ Hsemi). by rewrite Hparts.
    + by rewrite <- !append_assoc.
Qed.

End SubtypeFacts.

(** ** Serving files *)

Section Files.
Context {env : GoEnv} {trie : Trie} {build : TrieBuild}.




End Files.

(** ** Lookup and dispatch *)

Section LookupDispatch.
Context {env : GoEnv} {trie : Trie}.

(** X19: Without a default language, [Lookup] tells what [ServeHTTP] does: the
    handle [Lookup] returns for the method and path of a request is the one
    [ServeHTTP] runs, on the request carrying the params [Lookup] returns,
    and its output is committed. *)
Theorem Lookup_agrees_with_ServeHTTP (r : Router) (rc : race) (rw : Transport)
    (req : Request) (handle : Handle) (ps : option Params) (tsr : bool) :
  DefaultLang r = "" →
  Lookup r (Method req) (Path (Url req)) = Ok (Some handle, ps, tsr) →
  is_Some ps ∨ rc = HandlerDone →
  let params := match ps with Some ps => VParams ps | None => VNil end in
  ServeHTTP r rc rw req
  = Copy (run (handle (WithValue req "Params" params)) NewResponseWriter) rw.
Proof.
  intros Hdef Hlook Hdone params. subst params.
  unfold Lookup in Hlook. destruct (lastByte (Path (Url req))) as [c|]; [|done].
  unfold lookupPath in Hlook. rewrite Hdef in Hlook. simpl in Hlook.
  unfold ServeHTTP. rewrite Hdef. simpl.
  destruct (trees r !! Method req) as [root|]; [|done].
  destruct (getValue root (Path (Url req)) true) as [[[[h|] ps'] i18n] tsr']; [|done].
  injection Hlook as -> -> ->.
  destruct ps as [ps|]; [done|]. by destruct Hdone as [[? [=]]| ->].
Qed.

End LookupDispatch.

(** ** Listing the routes *)

Section ListingFacts.
Context {env : GoEnv} {laws : GoEnvLaws}.
Import SpecTrie Listing.

(** Induction on a tree: the children of a node satisfy the property. *)
Lemma Node_ind_children (P : Node → Prop) :
  (∀ s k cs h i w, Forall P cs → P (mkNode s k cs h i w)) → ∀ n, P n.
Proof.
  intros Hnode. fix IH 1. intros [s k cs h i w]. apply Hnode.
  induction cs as [|c cs IHcs]; constructor; [apply IH | apply IHcs].
Qed.







Lemma sum_list_perm (l1 l2 : list nat) : l1 ≡ₚ l2 → sum_list l1 = sum_list l2.
Proof. induction 1; simpl; lia. Qed.

Lemma eachUntil_all {A : Type} (it : A → list visit → list visit * bool)
    (size : A → nat) (l : list A) :
  Forall (λ x, ∀ seen, ∃ new, it x seen = (seen ++ new, true) ∧ length new = size x) l →
  ∀ seen, ∃ new, eachUntil it l seen = (seen ++ new, true)
                 ∧ length new = sum_list (map size l).
Proof.
  induction 1 as [|x l Hx _ IH]; intros seen.
  - exists []. by rewrite app_nil_r.
  - simpl. destruct (Hx seen) as (new1 & -> & Hl1).
    destruct (IH (seen ++ new1)) as (new2 & -> & Hl2).
    exists (new1 ++ new2). split; [by rewrite app_assoc|].
    rewrite length_app. lia.
Qed.

Lemma iter_all (method : string) (n : Node) :
  ∀ path seen, ∃ new,
    iter true method path n (λ _, true) seen = (seen ++ new, true)
    ∧ length new = handled n.
Proof.
  induction n as [s k cs h i w IH] using Node_ind_children. intros path seen.
  assert (Hbelow : ∀ seen, ∃ new,
            eachUntil (λ child, iter true method (path +:+ s) child (λ _, true)) cs seen
            = (seen ++ new, true) ∧ length new = sum_list (map handled cs)).
  { apply eachUntil_all. eapply Forall_impl; [exact IH|]. intros c Hc. apply Hc. }
  cbn [iter handled]. destruct h as [hd|]; [|apply Hbelow].
  destruct (Hbelow (seen ++ [(method, path +:+ s, hd)])) as (new & Heq & Hlen).
  exists ((method, path +:+ s, hd) :: new). cbv zeta. rewrite Heq.
  split; [by rewrite <- app_assoc|]. simpl. by rewrite Hlen.
Qed.

(** X21: With [params] set and a visitor that never refuses, [HandlerPaths]
    calls the visitor once for every node that carries a handle, in every
    tree; no handle is skipped and none is reported twice. *)
Theorem HandlerPaths_visits_every_handle
    (fixPath : Node → string → bool → string * bool) (clean : string → string)
    (r : @Router (SpecTrie.trie fixPath clean)) :
  length (HandlerPaths fixPath clean r true (λ _, true))
  = sum_list (map (λ mn, handled mn.2) (map_to_list (trees r))).
Proof.
  unfold HandlerPaths.
  destruct (eachUntil_all (λ mn, iter true mn.1 "" mn.2 (λ _, true))
              (λ mn : string * Node, handled mn.2)
              (range_map Node (trees r))) with (seen := @nil visit) as (new & Heq & Hlen).
  { apply Forall_forall. intros [m n] _ seen. apply iter_all. }
  rewrite Heq. simpl. rewrite Hlen.
  apply sum_list_perm, Permutation_map, range_map_perm.
Qed.

Lemma eachUntil_find {A : Type} (it : A → list visit → list visit * bool)
    (g : A → bool) (name : string) (l : list A) :
  Forall (λ x, ∀ seen, ∃ new, it x seen = (seen ++ new, true)
                 ∧ (g x = true ↔ name ∈ map (λ v : visit, v.1.2) new)) l →
  ∀ seen, ∃ new, eachUntil it l seen = (seen ++ new, true)
                 ∧ (existsb g l = true ↔ name ∈ map (λ v : visit, v.1.2) new).
Proof.
  induction 1 as [|x l Hx _ IH]; intros seen.
  - exists []. split; [by rewrite app_nil_r|]. simpl. split; [done|by intros ?%elem_of_nil].
  - simpl. destruct (Hx seen) as (new1 & -> & H1).
    destruct (IH (seen ++ new1)) as (new2 & -> & H2).
    exists (new1 ++ new2). split; [by rewrite app_assoc|].
    rewrite map_app, elem_of_app, orb_true_iff. tauto.
Qed.

Lemma iter_find (name method : string) (n : Node) :
  wildFree n = true →
  ∀ path seen, ∃ new,
    iter true method path n (λ _, true) seen = (seen ++ new, true)
    ∧ (find name path n = true ↔ name ∈ map (λ v : visit, v.1.2) new).
Proof.
  induction n as [s k cs h i w IH] using Node_ind_children. intros Hfree path seen.
  cbn [wildFree] in Hfree. apply andb_prop in Hfree as [Hk Hcs].
  destruct k; try done. clear Hk.
  assert (Hbelow : ∀ seen, ∃ new,
            eachUntil (λ child, iter true method (path +:+ s) child (λ _, true)) cs seen
            = (seen ++ new, true)
            ∧ (existsb (find name (path +:+ s)) cs = true
               ↔ name ∈ map (λ v : visit, v.1.2) new)).
  { apply eachUntil_find. rewrite forallb_forall in Hcs.
    apply Forall_forall. intros c Hc seen'.
    rewrite Forall_forall in IH. apply (IH c Hc). apply Hcs. by apply list_elem_of_In. }
  cbn [iter find]. destruct h as [hd|]; [|apply Hbelow].
  destruct (Hbelow (seen ++ [(method, path +:+ s, hd)])) as (new & Heq & Hiff).
  exists ((method, path +:+ s, hd) :: new). cbv zeta. rewrite Heq.
  split; [by rewrite <- app_assoc|].
  rewrite orb_true_iff, Hiff. cbn [map fst snd]. rewrite elem_of_cons.
  by rewrite String.eqb_eq.
Qed.

(** X22: On a router without parameter and catch-all nodes, [PathExist] and
    [HandlerPaths] agree: a path exists exactly when it is the path of one
    of the handles the listing reports. *)
Theorem PathExist_agrees_with_HandlerPaths
    (fixPath : Node → string → bool → string * bool) (clean : string → string)
    (r : @Router (SpecTrie.trie fixPath clean)) (name : string) :
  (∀ m n, trees r !! m = Some n → wildFree n = true) →
  PathExist fixPath clean r name = true
  ↔ name ∈ map (λ v : visit, v.1.2) (HandlerPaths fixPath clean r true (λ _, true)).
Proof.
  intros Hfree. unfold PathExist, HandlerPaths.
  destruct (eachUntil_find (λ mn, iter true mn.1 "" mn.2 (λ _, true))
              (λ mn : string * Node, find name "" mn.2) name
              (range_map Node (trees r))) with (seen := @nil visit) as (new & Heq & Hiff).
  { apply Forall_forall. intros [m n] Hmn seen. apply iter_find.
    rewrite (range_map_perm _ (trees r)) in Hmn. apply elem_of_map_to_list in Hmn.
    by apply (Hfree m). }
  by rewrite Heq.
Qed.

End ListingFacts.

(** ** Where a redirect points *)

Section RedirectTargets.
Context {env : GoEnv} {laws : GoEnvLaws} {trie : Trie}.

Lemma http_Redirect_location (w : ResponseWriter) (req : Request) (url : string) (c : Z) :
  header (http_Redirect w req url c) !! "Location"
  = Some [redirect_target (Path (Url req)) url].
Proof.
  unfold http_Redirect, Hdr.Set_.
  destruct (negb _ && (_ || _)), (negb _ && _); simpl;
    first [apply lookup_insert_eq
          | rewrite lookup_insert_ne by done; apply lookup_insert_eq].
Qed.

(** X23: The redirect for the trailing slash points at the request path with
    its trailing slash removed, or added when it had none; the redirect for
    a fixed path points at the path the tree found.  Either keeps the
    query, and the Location header is what [http.Redirect] makes of that
    URL. *)
Theorem redirect_location (r : Router) (rc : race) (rw : Transport) (req : Request) :
  let path := Path (Url req) in
  let location (target : string) :=
    Some [redirect_target target
            (URL_String {| Path := target; RawQuery := RawQuery (Url req) |})] in
  t_header rw !! "Location" = None →
  (redirectsTrailingSlash r req = true →
   t_header (ServeHTTP r rc rw req) !! "Location"
   = location (if (1 <? String.length path)%nat
                  && bool_decide (lastByte path = Some "/"%char)
               then dropLast path else path +:+ "/"))
  ∧ (∀ root, redirectsFixedPath r req = true →
       trees r !! Method req = Some root →
       t_header (ServeHTTP r rc rw req) !! "Location"
       = location (findCaseInsensitivePath root (CleanPath path)
                                           (RedirectTrailingSlash r)).1).
Proof.
  intros path location Hrw.
  assert (Hloc : ∀ w' target c,
    t_header (Copy (http_Redirect w' (setPath req target)
                      (URL_String (Url (setPath req target))) c) rw) !! "Location"
    = location target).
  { intros. by rewrite Copy_header_lookup, http_Redirect_location, Hrw. }
  split.
  - intros Hred. unfold redirectsTrailingSlash in Hred. unfold ServeHTTP. fold path in Hred |- *.
    destruct (trees r !! Method req) as [root|]; [|done].
    destruct (getValue root path true) as [[[[h|] ps] i18n] tsr]; [done|].
    apply andb_prop in Hred as [[[Hm Hp]%andb_prop Htsr]%andb_prop Hrts].
    rewrite Hm, Hp, Htsr, Hrts. simpl.
    destruct ((1 <? String.length path)%nat && _); apply Hloc.
  - intros root Hred Htree. unfold redirectsFixedPath in Hred. unfold ServeHTTP.
    fold path in Hred |- *. rewrite Htree in Hred |- *.
    destruct (getValue root path true) as [[[[h|] ps] i18n] tsr]; [done|].
    apply andb_prop in Hred
      as [[[[Hm Hp]%andb_prop Htsr%negb_true_iff]%andb_prop Hfix]%andb_prop Hfound].
    rewrite Hm, Hp, Htsr, Hfix. simpl.
    destruct (findCaseInsensitivePath root (CleanPath path) (RedirectTrailingSlash r))
      as [fixedPath found]. simpl in Hfound |- *. subst found. apply Hloc.
Qed.

End RedirectTargets.

(** ** Every request is answered *)

Section Answered.
Context {env : GoEnv} {trie : Trie}.






End Answered.

(** ** Witnesses of the further properties *)

Section MoreWitnesses.

#[local] Existing Instance Testbed.env.
#[local] Existing Instance Testbed.trie.
#[local] Existing Instance Builder.build.

Lemma ByName_first_match_witness :
  let pre := [{| Key := "id"; Value := "7" |}] in
  let p := {| Key := "name"; Value := "gopher" |} in
  let post := [{| Key := "name"; Value := "other" |}] in
  (pre ++ p :: post = pre ++ p :: post ∧ Key p = "name"
   ∧ Forall (λ p, Key p ≠ "name") pre)
  ∧ ByName (pre ++ p :: post) "name" = "gopher".
Proof.
  intros pre p post.
  assert (H1 : pre ++ p :: post = pre ++ p :: post) by reflexivity.
  assert (H2 : Key p = "name") by reflexivity.
  assert (H3 : Forall (λ p, Key p ≠ "name") pre) by (repeat constructor; discriminate).
  split; [repeat split; assumption|].
  exact (proj1 (ByName_first_match (pre ++ p :: post) "name") pre p post H1 H2 H3).
Defined.

Lemma Copy_merges_header_witness :
  let w := run [OpAdd "Vary" "Accept-Language"] NewResponseWriter in
  let rw := {| t_header := {["Vary" := ["Accept"]]}; t_status := 0; t_body := "" |} in
  t_header (Copy w rw) !! "Vary" = Some ["Accept"; "Accept-Language"].
Proof.
  intros w rw. rewrite (Copy_merges_header (laws := testbed_laws) w rw "Vary").
  vm_compute. reflexivity.
Defined.



Lemma output_before_cancellation_is_discarded_witness :
  let r := Testbed.single "GET" "/deadline" false Testbed.halves ∅ "" in
  let req := Testbed.request "GET" "/deadline" ∅ in
  let root := Testbed.route "/deadline" false Testbed.halves in
  (trees r !! Method req = Some root
   ∧ getValue root (Path (Url req)) true = (Some Testbed.halves, None, false, false))
  ∧ t_body (ServeHTTP r (CtxDone DeadlineExceeded 1 []) Testbed.transport req)
    = "Request Timeout" +:+ Testbed.newline.
Proof.
  intros r req root.
  assert (H1 : trees r !! Method req = Some root) by (vm_compute; reflexivity).
  assert (H2 : getValue root (Path (Url req)) true
               = (Some Testbed.halves, None, false, false)) by (vm_compute; reflexivity).
  split; [repeat split; assumption|].
  rewrite (output_before_cancellation_is_discarded r DeadlineExceeded 1 [] Testbed.transport
             req root Testbed.halves false false H1 H2).
  vm_compute. reflexivity.
Defined.

Lemma cancellation_status_under_every_schedule_witness :
  let hops := [OpWrite "late"; OpSet "X-Late" "1"] in
  let sched := [false; true; false; true] in
  (Forall (λ o, isWriteHeader o = false) hops ∧ t_status Testbed.transport = 0)
  ∧ t_status (interleave sched hops (cancelSteps DeadlineExceeded) NewResponseWriter
                         Testbed.transport) = 408.
Proof.
  intros hops sched.
  assert (H1 : Forall (λ o, isWriteHeader o = false) hops) by (repeat constructor).
  assert (H2 : t_status Testbed.transport = 0) by reflexivity.
  split; [repeat split; assumption|].
  exact (cancellation_status_under_every_schedule DeadlineExceeded sched hops
           NewResponseWriter Testbed.transport H1 H2).
Defined.

Lemma Handle_succeeds_iff_witness :
  ∃ r', Router_Handle New "GET" "/hello" false (Some Testbed.hello) = Ok r'.
Proof.
  apply (proj2 (Handle_succeeds_iff New "GET" "/hello" false (Some Testbed.hello))).
  split; [discriminate|]. split; [reflexivity|].
  exists Testbed.hello, (Testbed.route "/hello" false Testbed.hello).
  split; [reflexivity|]. vm_compute. reflexivity.
Defined.

Lemma registration_keeps_globalAllowed_witness :
  let r' := withTrees New {["GET" := Testbed.route "/hello" false Testbed.hello]}
                      "GET, OPTIONS" in
  (globalAllowed New = serverAllowSpec (dom (trees New))
   ∧ Router_Handle New "GET" "/hello" false (Some Testbed.hello) = Ok r')
  ∧ globalAllowed r' = serverAllowSpec (dom (trees r')).
Proof.
  intros r'.
  assert (H1 : globalAllowed New = serverAllowSpec (dom (trees New)))
    by (vm_compute; reflexivity).
  assert (H2 : Router_Handle New "GET" "/hello" false (Some Testbed.hello) = Ok r')
    by (vm_compute; reflexivity).
  split; [repeat split; assumption|].
  exact (proj2 (registration_keeps_globalAllowed (laws := testbed_laws))
           New r' "GET" "/hello" false (Some Testbed.hello) H1 H2).
Defined.

Lemma registration_leaves_other_methods_witness :
  let r := withTrees New {["GET" := Testbed.route "/hello" false Testbed.hello]}
                     "GET, OPTIONS" in
  let r' := withTrees New {["GET" := Testbed.route "/hello" false Testbed.hello;
                            "POST" := Testbed.route "/form" false Testbed.halves]}
                      "GET, OPTIONS, POST" in
  let req := Testbed.request "GET" "/hello" ∅ in
  let root := Testbed.route "/hello" false Testbed.hello in
  (Router_Handle r "POST" "/form" false (Some Testbed.halves) = Ok r'
   ∧ Method req ≠ "POST"
   ∧ trees r !! Method req = Some root
   ∧ is_Some (getValue root (Path (Url req)) true).1.1.1)
  ∧ ServeHTTP r' HandlerDone Testbed.transport req
    = ServeHTTP r HandlerDone Testbed.transport req.
Proof.
  intros r r' req root.
  assert (H1 : Router_Handle r "POST" "/form" false (Some Testbed.halves) = Ok r')
    by (vm_compute; reflexivity).
  assert (H2 : Method req ≠ "POST") by discriminate.
  assert (H3 : trees r !! Method req = Some root) by (vm_compute; reflexivity).
  assert (H4 : is_Some (getValue root (Path (Url req)) true).1.1.1)
    by (exists Testbed.hello; vm_compute; reflexivity).
  split; [repeat split; assumption|].
  exact (registration_leaves_other_methods r r' "POST" "/form" false (Some Testbed.halves)
           HandlerDone Testbed.transport req root H1 H2 H3 H4).
Defined.

Lemma server_wide_OPTIONS_witness :
  let r := withTrees New {["GET" := Testbed.route "/hello" false Testbed.hello]}
                     "GET, OPTIONS" in
  let req := Testbed.request "OPTIONS" "*" ∅ in
  (globalAllowed r = serverAllowSpec (dom (trees r))
   ∧ Method req = "OPTIONS" ∧ Path (Url req) = "*"
   ∧ HandleOPTIONS r = true ∧ reachesFallback r req = true)
  ∧ t_header (ServeHTTP r HandlerDone Testbed.transport req) !! "Allow"
    = Some ["GET, OPTIONS"].
Proof.
  intros r req.
  assert (H1 : globalAllowed r = serverAllowSpec (dom (trees r)))
    by (vm_compute; reflexivity).
  assert (H2 : Method req = "OPTIONS") by reflexivity.
  assert (H3 : Path (Url req) = "*") by reflexivity.
  assert (H4 : HandleOPTIONS r = true) by reflexivity.
  assert (H5 : reachesFallback r req = true) by (vm_compute; reflexivity).
  split; [repeat split; assumption|].
  rewrite (server_wide_OPTIONS r HandlerDone Testbed.transport req
             H1 H2 H3 H4 H5).
  vm_compute. reflexivity.
Defined.

Lemma FindBest_sound_witness :
  let tps := [{| Typ := "pt"; Q := 1000 |}; {| Typ := "en"; Q := 800 |}] in
  let vs : gset string := {["en"; "de"]} in
  Negotiation.FindBest tps vs = ""
  ∨ ∃ s tp, s ∈ vs ∧ Negotiation.FindBest tps vs = TrimSpace s
            ∧ tp ∈ tps ∧ Negotiation.comptypes (Typ tp) (TrimSpace s) = true
            ∧ Q tp = Negotiation.rankType tps (TrimSpace s) ∧ Q tp > -1.
Proof.
  intros tps vs. exact (FindBest_sound (laws := testbed_laws) tps vs).
Defined.

Lemma FindBest_best_witness :
  let tps := [{| Typ := "pt"; Q := 1000 |}; {| Typ := "en"; Q := 800 |}] in
  let vs : gset string := {["en"; "pt"]} in
  ((∀ s, s ∈ vs → TrimSpace s ≠ "" ∧ TrimSpace s ≠ "*" ∧ TrimSpace s ≠ "*/*")
   ∧ "en" ∈ vs
   ∧ Negotiation.rankType tps (TrimSpace "en") > -1)
  ∧ Negotiation.FindBest tps vs ≠ ""
  ∧ Negotiation.rankType tps (TrimSpace "en")
    ≤ Negotiation.rankType tps (Negotiation.FindBest tps vs).
Proof.
  intros tps vs.
  assert (H1 : ∀ s, s ∈ vs → TrimSpace s ≠ "" ∧ TrimSpace s ≠ "*" ∧ TrimSpace s ≠ "*/*").
  { intros s [->%elem_of_singleton | ->%elem_of_singleton]%elem_of_union;
      repeat split; discriminate. }
  assert (H2 : "en" ∈ vs) by (apply elem_of_union; left; by apply elem_of_singleton).
  assert (H3 : Negotiation.rankType tps (TrimSpace "en") > -1) by (vm_compute; reflexivity).
  split; [exact (conj H1 (conj H2 H3))|].
  exact (FindBest_best (laws := testbed_laws) tps vs "en" H1 H2 H3).
Defined.

Lemma selected_language_is_supported_or_default_witness :
  let r := Testbed.single "GET" "/lang" true Testbed.hello {["en"; "pt"]} "en" in
  let req := Testbed.request "GET" "/lang" {["Accept-Language" := ["pt-BR, pt;q=0.9"]]} in
  ∃ lang,
    ContentLang (selectLang r NewResponseWriter req).1.2 = Ok lang
    ∧ (lang = DefaultLang r ∨ lang ∈ SupportedLangs r
       ∨ ∃ s, s ∈ SupportedLangs r ∧ lang = TrimSpace s).
Proof.
  intros r req.
  exact (selected_language_is_supported_or_default (laws := testbed_laws)
           r NewResponseWriter req).
Defined.

Lemma language_of_the_path_wins_witness :
  let r := Testbed.single "GET" "/pt/lang" true Testbed.hello {["en"; "pt"]} "en" in
  let req := Testbed.request "GET" "/pt/lang" {["Accept-Language" := ["en"]]} in
  let root := Testbed.route "/pt/lang" true Testbed.hello in
  (trees r !! Method req = Some root
   ∧ getValue root (Path (Url req)) true = (Some Testbed.hello, None, true, false)
   ∧ DefaultLang r ≠ ""
   ∧ URL_String (Url req) ≠ "*"
   ∧ splitPath (Path (Url req)) = ["pt"; "lang"]
   ∧ "pt" ∈ SupportedLangs r)
  ∧ ∃ req',
      ContentLang req' = Ok "pt"
      ∧ Url req' = Url req
      ∧ ServeHTTP r HandlerDone Testbed.transport req
        = Copy (run (Testbed.hello req') NewResponseWriter) Testbed.transport.
Proof.
  intros r req root.
  assert (H1 : trees r !! Method req = Some root) by (vm_compute; reflexivity).
  assert (H2 : getValue root (Path (Url req)) true
               = (Some Testbed.hello, None, true, false)) by (vm_compute; reflexivity).
  assert (H3 : DefaultLang r ≠ "") by discriminate.
  assert (H4 : URL_String (Url req) ≠ "*") by discriminate.
  assert (H5 : splitPath (Path (Url req)) = ["pt"; "lang"]) by (vm_compute; reflexivity).
  assert (H6 : "pt" ∈ SupportedLangs r) by (vm_compute; reflexivity).
  split; [repeat split; assumption|].
  exact (language_of_the_path_wins r Testbed.transport req root Testbed.hello None false
           "pt" ["lang"] H1 H2 H3 H4 H5 H6).
Defined.

Lemma ParseLang_invents_nothing_witness :
  ∃ res, Negotiation.ParseLang "da, en-gb;q=0.8" = Ok res
    ∧ ∀ tp, tp ∈ res →
        tp ∈ [{| Typ := "da"; Q := 1000 |}; {| Typ := "en-gb"; Q := 800 |}]
        ∨ (Negotiation.IsPresent
             [{| Typ := "da"; Q := 1000 |}; {| Typ := "en-gb"; Q := 800 |}] (Typ tp) = false
           ∧ ∃ v, v ∈ [{| Typ := "da"; Q := 1000 |}; {| Typ := "en-gb"; Q := 800 |}]
                  ∧ Negotiation.familyOf v = Some (Typ tp) ∧ Q v = Q tp).
Proof.
  pose proof (ParseLang_invents_nothing (laws := testbed_laws) "da, en-gb;q=0.8") as H.
  assert (Hp : Negotiation.Parse "da, en-gb;q=0.8"
               = Ok [{| Typ := "da"; Q := 1000 |}; {| Typ := "en-gb"; Q := 800 |}])
    by (vm_compute; reflexivity).
  rewrite Hp in H. exact H.
Defined.

Lemma Parse_plain_header_witness :
  ("da, en" ≠ "" ∧ (";"%char ∉ list_ascii_of_string "da, en"))
  ∧ ∃ tps, Negotiation.Parse "da, en" = Ok tps
      ∧ tps ≡ₚ map (λ mp, {| Typ := TrimSpace mp; Q := 1000 |}) (Split "," "da, en").
Proof.
  assert (H1 : "da, en" ≠ "") by discriminate.
  assert (H2 : ";"%char ∉ list_ascii_of_string "da, en").
  { intros H%list_elem_of_In. simpl in H. intuition discriminate. }
  split; [exact (conj H1 H2)|].
  exact (Parse_plain_header (laws := testbed_laws) "da, en" H1 H2).
Defined.

Lemma Subtype_of_media_type_witness :
  (("/"%char ∉ list_ascii_of_string "text") ∧ (";"%char ∉ list_ascii_of_string "text")
   ∧ ("/"%char ∉ list_ascii_of_string "html") ∧ (";"%char ∉ list_ascii_of_string "html"))
  ∧ Subtype "text/html" = Ok "html"
  ∧ Subtype "text/html;charset=utf-8" = Ok "html".
Proof.
  assert (H1 : "/"%char ∉ list_ascii_of_string "text").
  { intros H%list_elem_of_In. simpl in H. intuition discriminate. }
  assert (H2 : ";"%char ∉ list_ascii_of_string "text").
  { intros H%list_elem_of_In. simpl in H. intuition discriminate. }
  assert (H3 : "/"%char ∉ list_ascii_of_string "html").
  { intros H%list_elem_of_In. simpl in H. intuition discriminate. }
  assert (H4 : ";"%char ∉ list_ascii_of_string "html").
  { intros H%list_elem_of_In. simpl in H. intuition discriminate. }
  split; [exact (conj H1 (conj H2 (conj H3 H4)))|].
  exact (Subtype_of_media_type "text" "html" "charset=utf-8" H1 H2 H3 H4).
Defined.


Lemma Lookup_agrees_with_ServeHTTP_witness :
  let r := Testbed.single "GET" "/user/:name" false Testbed.hello ∅ "" in
  let req := Testbed.request "GET" "/user/gopher" ∅ in
  let ps := Some [{| Key := "name"; Value := "gopher" |}] in
  (DefaultLang r = ""
   ∧ Lookup r (Method req) (Path (Url req)) = Ok (Some Testbed.hello, ps, false)
   ∧ (is_Some ps ∨ HandlerDone = HandlerDone))
  ∧ ServeHTTP r HandlerDone Testbed.transport req
    = Copy (run (Testbed.hello
                   (WithValue req "Params"
                      (VParams [{| Key := "name"; Value := "gopher" |}])))
                NewResponseWriter) Testbed.transport.
Proof.
  intros r req ps.
  assert (H1 : DefaultLang r = "") by reflexivity.
  assert (H2 : Lookup r (Method req) (Path (Url req)) = Ok (Some Testbed.hello, ps, false))
    by (vm_compute; reflexivity).
  assert (H3 : is_Some ps ∨ HandlerDone = HandlerDone) by (by right).
  split; [repeat split; assumption|].
  exact (Lookup_agrees_with_ServeHTTP r HandlerDone Testbed.transport req Testbed.hello ps
           false H1 H2 H3).
Defined.


Lemma HandlerPaths_visits_every_handle_witness :
  let r := Testbed.router {["GET" := Testbed.route "/hello" false Testbed.hello;
                            "POST" := Testbed.route "/form" false Testbed.halves]} ∅ "" in
  length (Listing.HandlerPaths (λ _ _ _, ("", false)) id r true (λ _, true)) = 2%nat.
Proof.
  intros r.
  rewrite (HandlerPaths_visits_every_handle (laws := testbed_laws)
             (λ _ _ _, ("", false)) id r).
  vm_compute. reflexivity.
Defined.

Lemma PathExist_agrees_with_HandlerPaths_witness :
  let r := Testbed.single "GET" "/hello" false Testbed.hello ∅ "" in
  (∀ m n, trees r !! m = Some n → Listing.wildFree n = true)
  ∧ Listing.PathExist (λ _ _ _, ("", false)) id r "/hello" = true.
Proof.
  intros r.
  assert (H1 : ∀ m n, trees r !! m = Some n → Listing.wildFree n = true).
  { intros m n Hmn. subst r. unfold Testbed.single, Testbed.router in Hmn.
    cbn [trees] in Hmn. apply lookup_singleton_Some in Hmn as [_ <-].
    vm_compute. reflexivity. }
  split; [exact H1|].
  apply (proj2 (PathExist_agrees_with_HandlerPaths (laws := testbed_laws)
                  (λ _ _ _, ("", false)) id r "/hello" H1)).
  vm_compute. left.
Defined.

Lemma redirect_location_witness :
  let r := Testbed.single "GET" "/dir/" false Testbed.hello ∅ "" in
  let req := Testbed.request "GET" "/dir" ∅ in
  (t_header Testbed.transport !! "Location" = None
   ∧ redirectsTrailingSlash r req = true)
  ∧ t_header (ServeHTTP r HandlerDone Testbed.transport req) !! "Location" = Some ["/dir/"].
Proof.
  intros r req.
  assert (H1 : t_header Testbed.transport !! "Location" = None) by reflexivity.
  assert (H2 : redirectsTrailingSlash r req = true) by (vm_compute; reflexivity).
  split; [exact (conj H1 H2)|].
  rewrite (proj1 (redirect_location (laws := testbed_laws) r HandlerDone Testbed.transport
                    req H1) H2).
  vm_compute. reflexivity.
Defined.

End MoreWitnesses.
